(** * Verification model of src/app.py (AI code debugger and auto fixer)

    Python [str] values are modelled as lists of Unicode code points
    ([list Z]); [len] is [length].  Dicts are stdpp [gmap]s, the disk is a
    [gmap] from path strings to file contents. *)

From Stdlib Require Import ZArith List String Ascii Lia Sorted.
From stdpp Require Import base gmap list.
Import ListNotations.
Open Scope Z_scope.

Abbreviation pystr := (list Z).

Module PyStr.

(** A Python string literal written in ASCII. *)
Definition lit (s : string) : pystr :=
  map (fun c => Z.of_nat (nat_of_ascii c)) (list_ascii_of_string s).

Definition NL : Z := 10.

(** [str.isspace] on one code point (Py_UNICODE_ISSPACE); this decides
    [str.strip()] and the regex class [\s] of [str] patterns. *)
Definition is_space (c : Z) : bool :=
  ((9 <=? c) && (c <=? 13)) || ((28 <=? c) && (c <=? 32)) ||
  (c =? 133) || (c =? 160) || (c =? 5760) ||
  ((8192 <=? c) && (c <=? 8202)) || (c =? 8232) || (c =? 8233) ||
  (c =? 8239) || (c =? 8287) || (c =? 12288).

Fixpoint drop_while (p : Z -> bool) (s : pystr) : pystr :=
  match s with
  | [] => []
  | c :: r => if p c then drop_while p r else s
  end.

Definition lstrip (s : pystr) : pystr := drop_while is_space s.
Definition rstrip (s : pystr) : pystr := rev (drop_while is_space (rev s)).
(** [str.strip()] with no argument. *)
Definition strip (s : pystr) : pystr := rstrip (lstrip s).

(** [sep.join(xs)]. *)
Fixpoint join (sep : pystr) (xs : list pystr) : pystr :=
  match xs with
  | [] => []
  | [x] => x
  | x :: r => x ++ sep ++ join sep r
  end.

(** [str.split(sep)] for a one-character separator. *)
Fixpoint split_on (sep : Z) (s : pystr) : list pystr :=
  match s with
  | [] => [[]]
  | c :: r =>
      if c =? sep then [] :: split_on sep r
      else match split_on sep r with
           | w :: ws => (c :: w) :: ws
           | [] => [[c]]
           end
  end.

Fixpoint prefixb (p s : pystr) : bool :=
  match p, s with
  | [], _ => true
  | c :: p', d :: s' => (c =? d) && prefixb p' s'
  | _ :: _, [] => false
  end.

Definition suffixb (p s : pystr) : bool := prefixb (rev p) (rev s).

(** [s.rfind(c)]: index of the last occurrence, or -1. *)
Fixpoint rfind_aux (c : Z) (s : pystr) (i : Z) (best : Z) : Z :=
  match s with
  | [] => best
  | d :: r => rfind_aux c r (i + 1) (if d =? c then i else best)
  end.
Definition rfind (c : Z) (s : pystr) : Z := rfind_aux c s 0 (-1).

(** [str.splitlines()]: the line boundaries are \n, \r, \r\n, \v, \f,
    \x1c, \x1d, \x1e, \x85, U+2028 and U+2029; a boundary at the end of the
    text opens no further line. *)
Definition line_boundary (c : Z) : bool :=
  existsb (Z.eqb c) [10; 13; 11; 12; 28; 29; 30; 133; 8232; 8233].

Fixpoint splitlines_aux (cur : pystr) (s : pystr) : list pystr :=
  match s with
  | [] => match cur with [] => [] | _ => [rev cur] end
  | c :: r =>
      if c =? 13 then
        match r with
        | d :: r' => if d =? 10 then rev cur :: splitlines_aux [] r'
                     else rev cur :: splitlines_aux [] r
        | [] => [rev cur]
        end
      else if line_boundary c then rev cur :: splitlines_aux [] r
      else splitlines_aux (c :: cur) r
  end.
Definition splitlines (s : pystr) : list pystr := splitlines_aux [] s.

(** No white space at either end. *)
Definition stripped (u : pystr) : Prop :=
  (forall c r, u = c :: r -> is_space c = false) /\
  (forall v c, u = v ++ [c] -> is_space c = false).

End PyStr.

Import PyStr.

Module Batcher.

(** [Path(p).name] (POSIX): the last component once empty and "."
    components are dropped. *)
Definition path_name (p : pystr) : pystr :=
  List.last (filter (fun w => negb (bool_decide (w = [])) &&
                         negb (bool_decide (w = lit "."))) (split_on 47 p)) [].

(** [Path(p).suffix]: [name[i:]] for the last dot [i], when
    [0 < i < len(name) - 1], and "" otherwise. *)
Definition path_suffix (p : pystr) : pystr :=
  let name := path_name p in
  let i := rfind 46 name in
  if (0 <? i) && (i <? Z.of_nat (length name) - 1)
  then skipn (Z.to_nat i) name else [].

(** [build_file_section] (app.py 104-106). *)
Definition build_file_section (file_path code : pystr) : pystr :=
  let s := drop_while (fun c => c =? 46) (path_suffix file_path) in
  let suffix := match s with [] => lit "txt" | _ => s end in
  lit "### FILE PATH: " ++ file_path ++ [NL] ++ lit "```" ++ suffix ++ [NL]
    ++ code ++ [NL] ++ lit "```" ++ [NL; NL].

(** Loop state of [chunk_files]: [batches], [batch_files], [current],
    [current_files], [length]. *)
Record chunk_state := CS {
  cs_batches : list pystr;
  cs_batch_files : list (list pystr);
  cs_current : list pystr;
  cs_current_files : list pystr;
  cs_length : Z
}.

(** The [for f in files] loop of [chunk_files] (app.py 117-126);
    [None] is the [KeyError] of [file_contents[f]]. *)
Fixpoint chunk_loop (file_contents : gmap pystr pystr) (max_chars : Z)
    (files : list pystr) (st : chunk_state) : option chunk_state :=
  match files with
  | [] => Some st
  | f :: rest =>
      match file_contents !! f with
      | None => None
      | Some code =>
          let section := build_file_section f code in
          let len_s := Z.of_nat (length section) in
          if negb (bool_decide (cs_current st = [])) &&
             (max_chars <? cs_length st + len_s)
          then chunk_loop file_contents max_chars rest
                 (CS (cs_batches st ++ [join [NL] (cs_current st)])
                     (cs_batch_files st ++ [cs_current_files st])
                     [section] [f] len_s)
          else chunk_loop file_contents max_chars rest
                 (CS (cs_batches st) (cs_batch_files st)
                     (cs_current st ++ [section])
                     (cs_current_files st ++ [f])
                     (cs_length st + len_s))
      end
  end.

(** [chunk_files] (app.py 108-130): [(batches, batch_files)]. *)
Definition chunk_files (files : list pystr) (file_contents : gmap pystr pystr)
    (max_chars : Z) : option (list pystr * list (list pystr)) :=
  match chunk_loop file_contents max_chars files (CS [] [] [] [] 0) with
  | None => None
  | Some st =>
      if negb (bool_decide (cs_current st = []))
      then Some (cs_batches st ++ [join [NL] (cs_current st)],
                 cs_batch_files st ++ [cs_current_files st])
      else Some (cs_batches st, cs_batch_files st)
  end.

(** The section [build_file_section(f, file_contents[f])] of a file. *)
Definition section_of (file_contents : gmap pystr pystr) (f : pystr) : pystr :=
  build_file_section f (file_contents !!! f).

(** The batch text [chr(10).join(sections)] of a list of files. *)
Definition batch_text (file_contents : gmap pystr pystr) (b : list pystr) : pystr :=
  join [NL] (map (section_of file_contents) b).

(** The running [length] of a list of sections. *)
Definition sum_len (l : list pystr) : Z :=
  fold_right (fun s acc => Z.of_nat (length s) + acc) 0 l.

(** A batch of two or more files whose sections add up to at most
    [max_chars]. *)
Definition fits (file_contents : gmap pystr pystr) (max_chars : Z)
    (b : list pystr) : Prop :=
  (2 <= length b)%nat -> sum_len (map (section_of file_contents) b) <= max_chars.

(** Holds for every two neighbours of a list. *)
Fixpoint neighbours {A} (R : A -> A -> Prop) (l : list A) : Prop :=
  match l with
  | x :: ((y :: _) as r) => R x y /\ neighbours R r
  | _ => True
  end.

(** A batch followed by a batch whose first file would not have fitted in
    it. *)
Definition overflows (fc : gmap pystr pystr) (max_chars : Z) (b b' : list pystr) : Prop :=
  match b' with
  | g :: _ => max_chars < sum_len (map (section_of fc) b) + Z.of_nat (length (section_of fc g))
  | [] => True
  end.

(** The invariant of [chunk_loop]: the stored texts are those of the stored
    batches, and each batch is non-empty and fits. *)
Definition loop_inv (file_contents : gmap pystr pystr) (max_chars : Z)
    (st : chunk_state) : Prop :=
  cs_batches st = map (batch_text file_contents) (cs_batch_files st) /\
  cs_current st = map (section_of file_contents) (cs_current_files st) /\
  cs_length st = sum_len (cs_current st) /\
  Forall (fun b => b <> [] /\ fits file_contents max_chars b) (cs_batch_files st) /\
  fits file_contents max_chars (cs_current_files st).

End Batcher.

Module Fences.

(** The regex rules of [clean_code_fences] are given for [str] patterns;
    [\w] there is [str.isalnum()] or "_".  Above ASCII, [isalnum] is a
    Unicode table, passed as [uni_alnum] (its value on code points
    [>= 128]). *)
Definition is_ascii_alnum (c : Z) : bool :=
  ((48 <=? c) && (c <=? 57)) || ((65 <=? c) && (c <=? 90)) ||
  ((97 <=? c) && (c <=? 122)).

Definition is_word (uni_alnum : Z -> bool) (c : Z) : bool :=
  is_ascii_alnum c || (c =? 95) || ((128 <=? c) && uni_alnum c).

(** The class [[\w+-]]. *)
Definition in_fence_class (uni_alnum : Z -> bool) (c : Z) : bool :=
  is_word uni_alnum c || (c =? 43) || (c =? 45).

Definition fence : pystr := lit "```".

(** [re.sub(r"^```[\w+-]*\n?", "", s)]: [^] only matches at 0, the class
    run is greedy and [\n?] takes a newline when one follows it. *)
Definition sub_open (uni_alnum : Z -> bool) (s : pystr) : pystr :=
  if prefixb fence s then
    match drop_while (in_fence_class uni_alnum) (skipn 3 s) with
    | c :: r => if c =? NL then r else c :: r
    | [] => []
    end
  else s.

(** [Some t] when [s = t ++ p]. *)
Definition strip_suffix (p s : pystr) : option pystr :=
  if suffixb p s then Some (firstn (length s - length p) s) else None.

(** [re.sub(r"\n?```$", "", s)]: [$] matches at the end or before a final
    newline; the leftmost match is taken, so a preceding newline is
    removed with the fence. *)
Definition sub_close (s : pystr) : pystr :=
  match strip_suffix (NL :: fence) s with
  | Some t => t
  | None =>
    match strip_suffix fence s with
    | Some t => t
    | None =>
      match strip_suffix (NL :: fence ++ [NL]) s with
      | Some t => t ++ [NL]
      | None =>
        match strip_suffix (fence ++ [NL]) s with
        | Some t => t ++ [NL]
        | None => s
        end
      end
    end
  end.

(** One pattern character [p] (lower case) against a text character under
    [re.IGNORECASE]: [p] itself, its ASCII upper case, and the characters
    the regex engine folds to it (U+0130 and U+0131 for i, U+017F for s,
    U+212A for k). *)
Definition ci_char (p c : Z) : bool :=
  (c =? p) ||
  (((97 <=? p) && (p <=? 122)) && (c =? p - 32)) ||
  ((p =? 105) && ((c =? 304) || (c =? 305))) ||
  ((p =? 115) && (c =? 383)) ||
  ((p =? 107) && (c =? 8490)).

(** Case-insensitive match of the literal [p] at the start of [s];
    returns the rest. *)
Fixpoint match_ci (p s : pystr) : option pystr :=
  match p, s with
  | [], _ => Some s
  | c :: p', d :: s' => if ci_char c d then match_ci p' s' else None
  | _ :: _, [] => None
  end.

Definition labels : list pystr :=
  [lit "fixed code"; lit "corrected code"; lit "suggested fix"].

(** [\s*:\s*] after the label. *)
Definition after_label (rest : pystr) : option pystr :=
  match drop_while is_space rest with
  | c :: r => if c =? 58 then Some (drop_while is_space r) else None
  | [] => None
  end.

Fixpoint first_label (ls : list pystr) (s : pystr) : option pystr :=
  match ls with
  | [] => None
  | l :: ls' =>
      match match_ci l s with
      | Some rest =>
          match after_label rest with
          | Some r => Some r
          | None => first_label ls' s
          end
      | None => first_label ls' s
      end
  end.

(** The match of [^\s*(Fixed code|Corrected code|Suggested fix)\s*:\s*]
    (IGNORECASE) at position 0: what is left after it.  The leading [\s*]
    is maximal (no label starts with white space) and the alternatives
    are tried in order. *)
Definition label_match (s : pystr) : option pystr :=
  first_label labels (drop_while is_space s).

Definition sub_label (s : pystr) : pystr :=
  match label_match s with Some r => r | None => s end.

(** [clean_code_fences] (app.py 82-92). *)
Definition clean_code_fences (uni_alnum : Z -> bool) (text : pystr) : pystr :=
  match text with
  | [] => []
  | _ =>
      let s := strip text in
      let s := sub_open uni_alnum s in
      let s := sub_close s in
      let s := sub_label s in
      strip s ++ [NL]
  end.

(** The stripped text the three rules leave: [clean_code_fences] of a
    non-empty text is [core ++ "\n"]. *)
Definition core (uni_alnum : Z -> bool) (text : pystr) : pystr :=
  strip (sub_label (sub_close (sub_open uni_alnum (strip text)))).

End Fences.

Module Disk.

(** [os.path.exists(p)]: a directory, or a file of the map. *)
Definition exists_path (is_dir : pystr -> bool) (fs : gmap pystr pystr) (p : pystr) : bool :=
  is_dir p || match fs !! p with Some _ => true | None => false end.

(** [open(p, 'w')] succeeds: [p] is not a directory ([IsADirectoryError])
    and [writable p] holds, that is the file can be created or truncated
    there (its directory exists and lets us write, the file is not
    read-only). *)
Definition can_write (is_dir writable : pystr -> bool) (p : pystr) : bool :=
  negb (is_dir p) && writable p.

(** A lone surrogate, which the UTF-8 codec refuses to encode. *)
Definition is_surrogate (c : Z) : bool := (55296 <=? c) && (c <=? 57343).

Definition backup_warning (file_path : pystr) : pystr :=
  lit "Warning: Could not create backup for " ++ file_path.
Definition updated_msg (file_path : pystr) : pystr := lit "Updated: " ++ file_path.
Definition write_error_msg (file_path : pystr) : pystr := lit "Error writing " ++ file_path.

(** [safe_backup] (app.py 74-80): the disk after the call and the lines it
    prints.  When the backup does not exist and the file does,
    [shutil.copyfile(file_path, bak)] copies the content; it raises when
    [file_path] is a directory or [bak] cannot be written, and the
    [except] prints the warning.  A path absent from the map is one that
    does not exist or cannot be read, as in [read_file]. *)
Definition safe_backup (is_dir writable : pystr -> bool) (fs : gmap pystr pystr)
    (file_path : pystr) : gmap pystr pystr * list pystr :=
  let bak := file_path ++ lit ".bak" in
  if negb (exists_path is_dir fs bak) && exists_path is_dir fs file_path then
    match fs !! file_path with
    | Some content =>
        if negb (is_dir file_path) && writable bak then (<[bak := content]> fs, [])
        else (fs, [backup_warning file_path])
    | None => (fs, [backup_warning file_path])
    end
  else (fs, []).

(** [write_file] (app.py 94-102): the disk after the call and the lines it
    prints.  The backup and the cleaning never raise; when [open] fails the
    [except] prints the error and the file is left as it was; when the
    cleaned text holds a lone surrogate, [f.write] raises after [open] has
    truncated the file, which is left empty. *)
Definition write_file (uni_alnum : Z -> bool) (is_dir writable : pystr -> bool)
    (fs : gmap pystr pystr) (file_path new_code : pystr) : gmap pystr pystr * list pystr :=
  let '(fs1, w1) := safe_backup is_dir writable fs file_path in
  let cleaned := Fences.clean_code_fences uni_alnum new_code in
  if can_write is_dir writable file_path then
    if existsb is_surrogate cleaned
    then (<[file_path := []]> fs1, w1 ++ [write_error_msg file_path])
    else (<[file_path := cleaned]> fs1, w1 ++ [updated_msg file_path])
  else (fs1, w1 ++ [write_error_msg file_path]).

End Disk.

Module Pipeline.
Import Batcher Fences.

(** What the program cannot see in advance: the Unicode word table, whether
    [genai.GenerativeModel(MODEL_NAME)] can be built, the model's reply to
    the n-th call ([RText t] for [resp.text = t], [RRaise msg] for an
    exception of the call or of [resp.text]), the answers given to the n-th
    confirmation question, the review template of [review_project], the
    directory listing [os.walk] gives, which paths are directories,
    whether openpyxl imports, which paths can be opened for writing, and
    the bytes of the workbook [wb.save] writes for a review text. *)
Inductive reply := RText (t : pystr) | RRaise (msg : pystr).

Record env := Env {
  uni_alnum : Z -> bool;
  model_ok : bool;
  model_reply : nat -> reply;
  has_prompt_func : bool;
  gui_answer : nat -> bool;
  console_answer : nat -> option pystr;
  review_template : pystr -> pystr -> pystr;
  walk : pystr -> list (pystr * list pystr);
  is_dir : pystr -> bool;
  has_openpyxl : bool;
  writable : pystr -> bool;
  workbook_bytes : pystr -> pystr
}.

(** Python exceptions that can leave a function. *)
Inductive exn := RuntimeError (msg : pystr) | OtherError (msg : pystr).

(** Observable actions: a log line (console or [ui_logger]; rich markup and
    emoji are left out), the banner of [clear_screen]/[print_logo], a model
    call with its prompt, a confirmation question. *)
Inductive event :=
  | ELog (msg : pystr)
  | EBanner
  | ECall (prompt : pystr)
  | EAsk (question : pystr).

Record state := St { st_fs : gmap pystr pystr; st_calls : nat; st_asks : nat }.

(** State, exceptions and an output trace. *)
Definition M (A : Type) : Type := state -> (exn + A) * state * list event.

Definition ret {A} (a : A) : M A := fun s => (inr a, s, []).
Definition bind {A B} (m : M A) (k : A -> M B) : M B := fun s =>
  match m s with
  | (inl e, s1, w1) => (inl e, s1, w1)
  | (inr a, s1, w1) => let '(r, s2, w2) := k a s1 in (r, s2, w1 ++ w2)
  end.
Definition raise {A} (e : exn) : M A := fun s => (inl e, s, []).
(** [try: m except Exception as e: h e]. *)
Definition try_except (m : M unit) (h : exn -> M unit) : M unit := fun s =>
  match m s with
  | (inl e, s1, w1) => let '(r, s2, w2) := h e s1 in (r, s2, w1 ++ w2)
  | x => x
  end.

Notation "'let*' x ':=' m 'in' k" := (bind m (fun x => k))
  (at level 200, x name, m at level 100, k at level 200).

Definition emit (e : event) : M unit := fun s => (inr tt, s, [e]).
Definition log (msg : pystr) : M unit := emit (ELog msg).
Definition get_fs : M (gmap pystr pystr) := fun s => (inr (st_fs s), s, []).
Definition put_fs (fs : gmap pystr pystr) : M unit :=
  fun s => (inr tt, St fs (st_calls s) (st_asks s), []).

(** The lines printed by a pure step, in order. *)
Fixpoint log_lines (msgs : list pystr) : M unit :=
  match msgs with
  | [] => ret tt
  | m :: rest => let* _ := log m in log_lines rest
  end.

Section Program.
Variable E : env.

(** One call of the model API: the reply to the n-th call. *)
Definition call_model (prompt : pystr) : M reply := fun s =>
  (inr (model_reply E (st_calls s)), St (st_fs s) (S (st_calls s)) (st_asks s),
   [ECall prompt]).

(** A confirmation question; the answer is the n-th one. *)
Definition next_ask (question : pystr) : M nat := fun s =>
  (inr (st_asks s), St (st_fs s) (st_calls s) (S (st_asks s)), [EAsk question]).

Definition model_unavailable_msg : pystr :=
  lit "Gemini model unavailable. Check API key or model name.".

(** [generate_content] (app.py 132-139); [MODEL is None] is
    [model_ok E = false]. *)
Definition generate_content (prompt : pystr) : M pystr :=
  if negb (model_ok E) then raise (RuntimeError model_unavailable_msg)
  else let* r := call_model prompt in
       match r with
       | RText t => ret t
       | RRaise msg => ret (lit "Error: " ++ msg)
       end.

(** [user_prompt or 'N/A']. *)
Definition requirement (user_prompt : option pystr) : pystr :=
  match user_prompt with Some (_ :: _ as u) => u | _ => lit "N/A" end.

(** [review_project] (app.py 141-204). *)
Definition review_project (all_code : pystr) (user_prompt : option pystr) : M pystr :=
  generate_content (review_template E all_code (requirement user_prompt)).

(** [read_file] (app.py 66-72); a path absent from the map is unreadable. *)
Definition read_file (file_path : pystr) : M (option pystr) :=
  let* fs := get_fs in
  match fs !! file_path with
  | Some code => ret (Some code)
  | None => let* _ := log (lit "Error reading " ++ file_path) in ret None
  end.

(** [write_file] (app.py 94-102); it never raises. *)
Definition write_file_m (file_path new_code : pystr) : M unit :=
  let* fs := get_fs in
  let '(fs', msgs) := Disk.write_file (uni_alnum E) (is_dir E) (writable E) fs
                        file_path new_code in
  let* _ := put_fs fs' in
  log_lines msgs.

(** [str.lower()] on the characters whose lower case holds an ASCII
    letter (A-Z, U+0130, U+212A); every other character is kept, and
    keeping a non-ASCII character never turns a text into an ASCII one, so
    comparisons with ASCII texts are the same as Python's. *)
Definition lower_char (c : Z) : pystr :=
  if (65 <=? c) && (c <=? 90) then [c + 32]
  else if c =? 304 then [105; 775]
  else if c =? 8490 then [107]
  else [c].
Definition py_lower (s : pystr) : pystr := flat_map lower_char s.

(** [input(...).strip().lower() == 'y']. *)
Definition is_yes (line : pystr) : bool := bool_decide (py_lower (strip line) = lit "y").

Definition fix_prompt (review_output file_path code : pystr) : pystr :=
  [NL] ++ lit "You are an AI assistant. Using the review below, fix only issues related to this file."
  ++ [NL; NL] ++ lit "Review:" ++ [NL] ++ review_output ++ [NL; NL]
  ++ lit "File: " ++ file_path ++ [NL] ++ lit "Current Code:" ++ [NL]
  ++ fence ++ skipn 1 (path_suffix file_path) ++ [NL] ++ code ++ [NL] ++ fence
  ++ [NL; NL] ++ lit "Output the corrected code for this file only." ++ [NL].

Definition apply_question (file_path : pystr) : pystr :=
  lit "Apply suggested changes to " ++ file_path ++ lit "?".

(** The [try] block of one file in [auto_fix_project] (app.py 240-275). *)
Definition fix_attempt (ui : bool) (review_output file_path code : pystr)
    (apply_all interactive : bool) : M unit :=
  let* r := call_model (fix_prompt review_output file_path code) in
  match r with
  | RRaise msg => raise (OtherError msg)
  | RText t =>
      let new_code := strip t in
      let* _ := log (lit "Suggested Fix for " ++ file_path) in
      let* _ := log (firstn 3000 new_code) in
      if apply_all then write_file_m file_path new_code
      else if interactive then
        if ui then
          if has_prompt_func E then
            let* n := next_ask (apply_question file_path) in
            if gui_answer E n then write_file_m file_path new_code
            else log (lit "Skipped: " ++ file_path)
          else raise (OtherError (lit "'NoneType' object is not callable"))
        else
          let* n := next_ask (apply_question file_path ++ lit " (y/n): ") in
          match console_answer E n with
          | None => raise (OtherError (lit "EOF when reading a line"))
          | Some line =>
              if is_yes line then write_file_m file_path new_code
              else log (lit "Skipped: " ++ file_path)
          end
      else log (lit "Skipped (non-interactive): " ++ file_path)
  end.

(** One iteration of the file loop of [auto_fix_project]. *)
Definition fix_file (ui : bool) (review_output file_path : pystr)
    (apply_all interactive : bool) : M unit :=
  let* code := read_file file_path in
  match code with
  | None | Some [] => ret tt
  | Some code =>
      try_except (fix_attempt ui review_output file_path code apply_all interactive)
        (fun _ => log (lit "Error fixing " ++ file_path))
  end.

Fixpoint fix_files (ui : bool) (review_output : pystr) (files : list pystr)
    (apply_all interactive : bool) : M unit :=
  match files with
  | [] => ret tt
  | f :: rest =>
      let* _ := fix_file ui review_output f apply_all interactive in
      fix_files ui review_output rest apply_all interactive
  end.

(** [auto_fix_project] (app.py 206-277): the model handle is built first,
    outside any [try]. *)
Definition auto_fix_project (ui : bool) (review_output : pystr)
    (files_to_process : list pystr) (apply_all interactive : bool) : M unit :=
  if negb (model_ok E) then raise (OtherError (lit "GenerativeModel"))
  else fix_files ui review_output files_to_process apply_all interactive.

(** [SUPPORTED_SUFFIXES] (app.py 32). *)
Definition supported_suffixes : list pystr :=
  map lit [".py"; ".js"; ".jsx"; ".ts"; ".java"; ".cpp"; ".html"; ".css"]%string.

Definition ignored_dirs : list pystr :=
  map lit ["node_modules"; ".git"; "__pycache__"; "dist"; "build"]%string.

(** [os.path.join(root, file)] for a relative file name. *)
Definition os_path_join (root name : pystr) : pystr :=
  match root with
  | [] => name
  | _ => if suffixb [47] root then root ++ name else root ++ [47] ++ name
  end.

(** [any(ignored in Path(path).parts for ignored in (...))]; empty and "."
    components are never one of the names. *)
Definition in_ignored_dir (path : pystr) : bool :=
  existsb (fun ig => existsb (fun part => bool_decide (part = ig)) (split_on 47 path))
    ignored_dirs.

(** [file.lower().endswith(SUPPORTED_SUFFIXES)]. *)
Definition has_supported_suffix (name : pystr) : bool :=
  existsb (fun suf => suffixb suf (py_lower name)) supported_suffixes.

(** Python's ordering of [str]: by code points, a prefix first. *)
Fixpoint str_leb (a b : pystr) : bool :=
  match a, b with
  | [], _ => true
  | _ :: _, [] => false
  | x :: a', y :: b' => (x <? y) || ((x =? y) && str_leb a' b')
  end.

Fixpoint insert_sorted (x : pystr) (l : list pystr) : list pystr :=
  match l with
  | [] => [x]
  | y :: r => if str_leb x y then x :: y :: r else y :: insert_sorted x r
  end.

Definition sort_strs (l : list pystr) : list pystr := fold_right insert_sorted [] l.

(** [get_code_files] (app.py 54-64). *)
Definition get_code_files (directory : pystr) : list pystr :=
  sort_strs (flat_map (fun '(root, files) =>
    flat_map (fun file =>
      if has_supported_suffix file then
        let path := os_path_join root file in
        if in_ignored_dir path then [] else [path]
      else []) files) (walk E directory)).

(** [os.path.exists(path)]. *)
Definition path_exists (fs : gmap pystr pystr) (path : pystr) : bool :=
  is_dir E path || match fs !! path with Some _ => true | None => false end.

Fixpoint show_nat_fuel (fuel n : nat) : pystr :=
  match fuel with
  | O => []
  | S fuel' =>
      if Nat.ltb n 10 then [Z.of_nat (48 + n)]
      else show_nat_fuel fuel' (n / 10) ++ [Z.of_nat (48 + n mod 10)]
  end.
Definition show_nat (n : nat) : pystr := show_nat_fuel (S n) n.

(** [{f: (read_file(f) or "") for f in files}]. *)
Fixpoint read_contents (acc : gmap pystr pystr) (files : list pystr) : M (gmap pystr pystr) :=
  match files with
  | [] => ret acc
  | f :: rest =>
      let* c := read_file f in
      read_contents (<[f := match c with Some c => c | None => [] end]> acc) rest
  end.

Definition batch_label (i n : nat) : pystr := show_nat i ++ lit "/" ++ show_nat n.

(** The batch loop of [run_pipeline] (app.py 341-365). *)
Fixpoint batch_loop (ui autofix apply_all : bool) (userprompt : option pystr)
    (i n : nat) (bs : list (pystr * list pystr)) : M (list pystr) :=
  match bs with
  | [] => ret []
  | (batch, batch_file_list) :: rest =>
      let* _ := log (lit "Processing batch " ++ batch_label i n ++ lit " (Review)...") in
      let* output := review_project batch userprompt in
      let* _ := log (lit "Review for batch " ++ batch_label i n) in
      let* _ := log (firstn (Z.to_nat 20000) output) in
      let* _ := (if autofix then
                   let* _ := log (lit "Processing batch " ++ batch_label i n ++
                                  lit " (Auto-Fix)...") in
                   auto_fix_project ui output batch_file_list apply_all true
                 else ret tt) in
      let* outputs := batch_loop ui autofix apply_all userprompt (S i) n rest in
      ret (output :: outputs)
  end.

(** The characters of openpyxl's [ILLEGAL_CHARACTERS_RE]
    ([\000-\010], [\013-\014], [\016-\037]). *)
Definition illegal_char (c : Z) : bool :=
  ((0 <=? c) && (c <=? 8)) || ((11 <=? c) && (c <=? 12)) || ((14 <=? c) && (c <=? 31)).

(** [Cell.check_string] accepts a text: cut to 32767 characters, it holds
    no illegal character (otherwise [IllegalCharacterError]). *)
Definition cell_ok (value : pystr) : bool :=
  negb (existsb illegal_char (firstn (Z.to_nat 32767) value)).

(** [save_to_excel] (app.py 280-308).  Without openpyxl only the warning
    is printed.  Otherwise each line of [review_output.splitlines()] goes
    into a cell, and the first line [check_string] refuses raises
    [IllegalCharacterError]; then [wb.save(filename)] raises when the file
    cannot be opened for writing, and writes the workbook otherwise.  No
    [except] covers these. *)
Definition save_to_excel (review_output filename : pystr) : M unit :=
  if has_openpyxl E then
    if negb (forallb cell_ok (splitlines review_output))
    then raise (OtherError (lit "IllegalCharacterError"))
    else if negb (Disk.can_write (is_dir E) (writable E) filename)
    then raise (OtherError (lit "OSError"))
    else
      let* fs := get_fs in
      let* _ := put_fs (<[filename := workbook_bytes E review_output]> fs) in
      log (lit "Review saved to Excel file named " ++ filename)
  else log (lit "Warning: openpyxl not installed. Cannot save to Excel.").

(** A hexadecimal digit in lower case. *)
Definition hex_digit (d : Z) : Z := if d <? 10 then 48 + d else 87 + d.
Definition hex4 (n : Z) : pystr :=
  map (fun k => hex_digit (Z.land (Z.shiftr n (4 * k)) 15)) [3; 2; 1; 0].

(** One character of a string as [json.dump] writes it with
    [ensure_ascii=True] ([py_encode_basestring_ascii]): the short escapes,
    printable ASCII as is, everything else as [\uXXXX], above U+FFFF as a
    surrogate pair. *)
Definition json_char (c : Z) : pystr :=
  if c =? 34 then [92; 34]
  else if c =? 92 then [92; 92]
  else if (32 <=? c) && (c <=? 126) then [c]
  else if c =? 8 then [92; 98]
  else if c =? 12 then [92; 102]
  else if c =? 10 then [92; 110]
  else if c =? 13 then [92; 114]
  else if c =? 9 then [92; 116]
  else if c <? 65536 then [92; 117] ++ hex4 c
  else let n := c - 65536 in
       [92; 117] ++ hex4 (Z.lor 55296 (Z.land (Z.shiftr n 10) 1023)) ++
       [92; 117] ++ hex4 (Z.lor 56320 (Z.land n 1023)).

Definition json_string (s : pystr) : pystr := [34] ++ flat_map json_char s ++ [34].

Definition json_filename : pystr := lit "project_review.json".

(** The text [json.dump({"review": review_output}, f, indent=2)]
    writes. *)
Definition review_json (review_output : pystr) : pystr :=
  lit "{" ++ [NL] ++ lit "  " ++ json_string (lit "review") ++ lit ": " ++
  json_string review_output ++ [NL] ++ lit "}".

(** The [export_json] step of [run_pipeline] (app.py 370-376): [open]
    raises when the file cannot be opened for writing. *)
Definition export_review_json (review_output : pystr) : M unit :=
  if Disk.can_write (is_dir E) (writable E) json_filename then
    let* fs := get_fs in
    let* _ := put_fs (<[json_filename := review_json review_output]> fs) in
    log (lit "Review saved to project_review.json")
  else raise (OtherError (lit "OSError")).

Definition invalid_path_msg (path : pystr) : pystr := lit "Invalid path: " ++ path.
Definition no_files_msg : pystr := lit "No source files found!".
Definition analyzing_msg (n : nat) : pystr :=
  lit "Analyzing " ++ show_nat n ++ lit " files...".
Definition start_event (ui : bool) : event :=
  if ui then ELog (lit "Starting analysis...") else EBanner.

(** [run_pipeline] (app.py 310-381); [ui] tells whether a [ui_logger] is
    given.  [interactive] is not used by the body. *)
Definition run_pipeline (path : pystr) (export_json autofix apply_all : bool)
    (userprompt : option pystr) (max_chars : Z) (ui : bool)
    (excel_filename : pystr) (interactive : bool) : M unit :=
  let* _ := emit (start_event ui) in
  let* fs := get_fs in
  if negb (path_exists fs path) then log (invalid_path_msg path)
  else
    let files := get_code_files path in
    match files with
    | [] => log no_files_msg
    | _ :: _ =>
        let* _ := log (analyzing_msg (length files)) in
        let* contents := read_contents ∅ files in
        match chunk_files files contents max_chars with
        | None => raise (OtherError (lit "KeyError"))
        | Some (batches, batch_files) =>
            let* all_reviews := batch_loop ui autofix apply_all userprompt 1
                                  (length batches) (combine batches batch_files) in
            let review_output := join [NL; NL] all_reviews in
            let* _ := save_to_excel review_output excel_filename in
            let* _ := (if export_json then export_review_json review_output
                       else ret tt) in
            log (lit "Done.")
        end
    end.

End Program.

(** A computation that never raises. *)
Definition safe {A} (m : M A) : Prop :=
  forall s, exists v s' w, m s = (inr v, s', w).

(** A computation that leaves the disk as it found it, whatever its
    outcome. *)
Definition keeps_fs {A} (m : M A) : Prop :=
  forall s, st_fs (m s).1.2 = st_fs s.

(** The text [generate_content] returns for a reply of the model. *)
Definition reply_text (r : reply) : pystr :=
  match r with RText t => t | RRaise msg => lit "Error: " ++ msg end.

End Pipeline.

Module Scenarios.
Import Pipeline.

(** A user who turns down the confirmation question number [n]: a false
    answer of [prompt_func] with a [ui_logger], a console line other than
    "y" without one. *)
Definition user_rejects (E : env) (ui : bool) (n : nat) : Prop :=
  if ui then has_prompt_func E = true /\ gui_answer E n = false
  else exists line, console_answer E n = Some line /\ is_yes line = false.

Definition no_uni : Z -> bool := fun _ => false.

(** A project directory [proj] whose listing holds [names]; the model
    handle can be built when [ok]. *)
Definition proj_env (ok : bool) (names : list pystr) : env :=
  Env no_uni ok (fun _ => RText (lit "ok")) true (fun _ => false)
    (fun _ => Some (lit "n")) (fun c r => c)
    (fun _ => [(lit "proj", names)]) (fun d => bool_decide (d = lit "proj")) true
    (fun _ => true) (fun _ => lit "PK").

Definition proj_fs : gmap pystr pystr := <[lit "proj/a.py" := lit "x = 1"]> ∅.

(** Three small files; the sections of [a.py] and [b.py] are 37 characters
    long, that of [c.py] 44. *)
Definition demo_files : list pystr := [lit "a.py"; lit "b.py"; lit "c.py"].
Definition demo_contents : gmap pystr pystr :=
  <[lit "a.py" := lit "x = 1"]> (<[lit "b.py" := lit "y = 2"]>
    (<[lit "c.py" := lit "print(x + y)"]> ∅)).
Definition demo_batch_files : list (list pystr) :=
  [[lit "a.py"; lit "b.py"]; [lit "c.py"]].

(** Two files with empty contents, whose sections are 30 characters each. *)
Definition pair_files : list pystr := [lit "a"; lit "b"].
Definition pair_contents : gmap pystr pystr := <[lit "a" := []]> (<[lit "b" := []]> ∅).

(** The project of [proj_env] where every model call raises. *)
Definition failing_env : env :=
  Env no_uni true (fun _ => RRaise (lit "quota exceeded")) true (fun _ => false)
    (fun _ => Some (lit "n")) (fun c r => c)
    (fun _ => [(lit "proj", [lit "a.py"])]) (fun d => bool_decide (d = lit "proj")) true
    (fun _ => true) (fun _ => lit "PK").

(** A fenced reply ending in three newlines. *)
Definition fenced_reply : pystr :=
  Fences.fence ++ lit "python" ++ [NL] ++ lit "x = 1" ++ [NL; NL; NL] ++ Fences.fence ++ [NL; NL].

End Scenarios.

(** * The Markdown renderer of the window

    [render_markdown] is nested in [launch_ui] (app.py 488-571); each
    [out_text.insert(tk.END, text, tags)] is an element [(text, tag)] of
    the output, [None] for an insert without tags. *)
Module Markdown.

Inductive tag := TSection | TInfo | TMuted | TCode.

Definition insert : Type := pystr * option tag.

(** Where the [while] loop is: between blocks, inside a code block (with
    [code_block_lines]), at the separator line of a table that is about to
    be skipped (the [i += 2]), or in the row loop of a table (with the
    header's [cols]). *)
Inductive mode :=
  | Normal
  | InCode (code_block_lines : list pystr)
  | SkipSep (cols : list pystr)
  | InTable (cols : list pystr).

(** [chr(c) in s]. *)
Definition contains (c : Z) (s : pystr) : bool := existsb (fun d => d =? c) s.

(** [s.lstrip('#')] and [s.strip('`')]. *)
Definition lstrip_hash (s : pystr) : pystr := drop_while (fun c => c =? 35) s.
Definition strip_ticks (s : pystr) : pystr :=
  rev (drop_while (fun c => c =? 96) (rev (drop_while (fun c => c =? 96) s))).

(** [re.match(r'^\s*\|?\s*[-:\s|]+\s*\|?\s*$', l)] on a line (which holds
    no newline): the line is not empty and every character is white space,
    '-', ':' or '|'. *)
Definition is_sep_line (l : pystr) : bool :=
  negb (bool_decide (l = [])) &&
  forallb (fun c => is_space c || (c =? 45) || (c =? 58) || (c =? 124)) l.

(** [[c.strip() for c in line.split('|')[1:-1]]]. *)
Definition inner_cells (l : pystr) : list pystr :=
  let parts := split_on 124 l in
  map strip (firstn (length parts - 2) (skipn 1 parts)).

(** ['| ' + ' | '.join(cols) + ' |\n']. *)
Definition cells_row (cols : list pystr) : pystr :=
  lit "| " ++ join (lit " | ") cols ++ lit " |" ++ [NL].

(** ['|' + '|'.join([' --- '] * n) + '|\n']. *)
Definition separator_row (n : nat) : pystr :=
  lit "|" ++ join (lit "|") (repeat (lit " --- ") n) ++ lit "|" ++ [NL].

(** [row_cols] padded with '' up to [n] cells, then cut to [n]. *)
Definition fit_cells (n : nat) (row : list pystr) : list pystr :=
  firstn n (row ++ repeat [] (n - length row)).

(** [re.split(r'(`[^`]+`)', line)]: the texts between the leftmost
    matches and the matches themselves, alternately.  [run] is [Some r]
    after a backtick that may open a match, [r] the non-backtick characters
    seen since; a second backtick right after the first gives up the first
    one, the end of the line gives up the candidate. *)
Fixpoint tick_parts_aux (s text : pystr) (run : option pystr) : list pystr :=
  match s with
  | [] => match run with None => [text] | Some r => [text ++ 96 :: r] end
  | c :: s' =>
      match run with
      | None =>
          if c =? 96 then tick_parts_aux s' text (Some [])
          else tick_parts_aux s' (text ++ [c]) None
      | Some r =>
          if c =? 96 then
            match r with
            | [] => tick_parts_aux s' (text ++ [96]) (Some [])
            | _ => text :: (96 :: r ++ [96]) :: tick_parts_aux s' [] None
            end
          else tick_parts_aux s' text (Some (r ++ [c]))
      end
  end.

Definition tick_parts (line : pystr) : list pystr := tick_parts_aux line [] None.

(** The inline-code branch. *)
Definition inline_inserts (line : pystr) : list insert :=
  map (fun part =>
         if prefixb [96] part && suffixb [96] part && Nat.ltb 2 (length part)
         then (strip_ticks part, Some TCode) else (part, None))
      (tick_parts line) ++ [([NL], None)].

Definition header_insert (line : pystr) : insert :=
  (strip (lstrip_hash line) ++ [NL], Some TSection).

(** One pass of the loop body outside a code block and a table; [next] is
    [lines[i + 1]] when it exists. *)
Definition normal_step (line : pystr) (next : option pystr) : mode * list insert :=
  let other :=
    if contains 96 line then (Normal, inline_inserts line)
    else (Normal, [(line ++ [NL], None)]) in
  if prefixb Fences.fence (strip line) then (InCode [], [])
  else if prefixb (lit "###") line then (Normal, [header_insert line])
  else if prefixb (lit "##") line then (Normal, [header_insert line])
  else if prefixb (lit "#") line then (Normal, [header_insert line])
  else match next with
       | Some nl =>
           if contains 124 line && is_sep_line nl then
             let cols := inner_cells line in
             (SkipSep cols,
              match cols with
              | [] => []
              | _ => [(cells_row cols, Some TInfo);
                      (separator_row (length cols), Some TMuted)]
              end)
           else other
       | None => other
       end.

(** One line in a given mode.  A row loop that meets a line without '|'
    inserts the blank line and goes back to the top of the outer loop with
    that line. *)
Definition md_step (m : mode) (line : pystr) (next : option pystr) : mode * list insert :=
  match m with
  | Normal => normal_step line next
  | InCode acc =>
      if prefixb Fences.fence (strip line)
      then (Normal, [(join [NL] acc ++ [NL], Some TCode); ([NL], None)])
      else (InCode (acc ++ [line]), [])
  | SkipSep cols => (InTable cols, [])
  | InTable cols =>
      if contains 124 line
      then (InTable cols, [(cells_row (fit_cells (length cols) (inner_cells line)), None)])
      else let '(m', out) := normal_step line next in (m', ([NL], None) :: out)
  end.

(** After the last line: a table still open gets its blank line; the lines
    of a code block never closed are dropped. *)
Definition finish (m : mode) : list insert :=
  match m with
  | SkipSep _ | InTable _ => [([NL], None)]
  | Normal | InCode _ => []
  end.

Fixpoint md_loop (m : mode) (lines : list pystr) : list insert :=
  match lines with
  | [] => finish m
  | l :: rest => let '(m', out) := md_step m l (hd_error rest) in out ++ md_loop m' rest
  end.

(** [render_markdown(text)]. *)
Definition render_markdown (text : pystr) : list insert :=
  md_loop Normal (split_on NL text).

End Markdown.

(** * Theorems *)


Module BatcherProofs.
Import Batcher.
#[local] Arguments section_of : simpl never.
#[local] Arguments build_file_section : simpl never.
#[local] Arguments sum_len : simpl never.

Section Loop.
Variable file_contents : gmap pystr pystr.
Variable max_chars : Z.

#[local] Abbreviation loop_inv := (loop_inv file_contents max_chars).

Lemma sum_len_app (l : list pystr) (s : pystr) :
  sum_len (l ++ [s]) = sum_len l + Z.of_nat (length s).
Proof. unfold sum_len. rewrite fold_right_app. cbn. induction l; cbn; lia. Qed.

Lemma sum_len_nonneg (l : list pystr) : 0 <= sum_len l.
Proof. unfold sum_len. induction l; cbn; lia. Qed.

Lemma chunk_loop_spec (files : list pystr) :
  forall st st', chunk_loop file_contents max_chars files st = Some st' ->
  loop_inv st ->
  loop_inv st' /\
  concat (cs_batch_files st') ++ cs_current_files st' =
  concat (cs_batch_files st) ++ cs_current_files st ++ files.
Proof.
  induction files as [|f rest IH]; intros st st' Hrun Hinv; cbn [chunk_loop] in Hrun.
  - injection Hrun as <-. rewrite app_nil_r. auto.
  - destruct (file_contents !! f) as [code|] eqn:Hf; [|discriminate].
    assert (Hsec : build_file_section f code = section_of file_contents f).
    { unfold section_of. by rewrite (lookup_total_correct _ _ _ Hf). }
    rewrite Hsec in Hrun.
    destruct Hinv as (Hb & Hc & Hl & Hbf & Hfit).
    destruct (negb (bool_decide (cs_current st = [])) &&
              (max_chars <? cs_length st + Z.of_nat (length (section_of file_contents f))))
      eqn:Hcond.
    + apply andb_prop in Hcond as [Hne _].
      apply negb_true_iff, bool_decide_eq_false in Hne.
      destruct (IH _ _ Hrun) as [Hinv' Hcat].
      * unfold loop_inv; cbn. split; [|split; [|split; [|split]]].
        -- rewrite Hb, map_app. cbn. unfold batch_text. by rewrite <- Hc.
        -- reflexivity.
        -- unfold sum_len. cbn. lia.
        -- apply Forall_app. split; [exact Hbf|]. constructor; [|constructor].
           split; [|exact Hfit]. intros Hn. apply Hne. rewrite Hc, Hn. reflexivity.
        -- unfold fits. cbn. lia.
      * split; [exact Hinv'|]. rewrite Hcat. cbn.
        rewrite concat_app. cbn. rewrite app_nil_r, <- !app_assoc. reflexivity.
    + destruct (IH _ _ Hrun) as [Hinv' Hcat].
      * unfold loop_inv; cbn. split; [exact Hb|split; [|split; [|split; [exact Hbf|]]]].
        -- rewrite Hc, map_app. reflexivity.
        -- rewrite Hl, sum_len_app. reflexivity.
        -- unfold fits. intros Hlen. rewrite map_app. cbn [map].
           rewrite sum_len_app, <- Hc, <- Hl.
           cbn.
           apply andb_false_iff in Hcond as [Hcur|Hle].
           ++ apply negb_false_iff, bool_decide_eq_true in Hcur.
              rewrite Hcur in Hc. symmetry in Hc. apply map_eq_nil in Hc.
              rewrite Hc in Hlen. cbn in Hlen. lia.
           ++ apply Z.ltb_ge in Hle. lia.
      * split; [exact Hinv'|]. rewrite Hcat. cbn. rewrite <- !app_assoc. reflexivity.
Qed.

Lemma chunk_files_spec (files : list pystr) (batches : list pystr)
    (batch_files : list (list pystr)) :
  chunk_files files file_contents max_chars = Some (batches, batch_files) ->
  batches = map (batch_text file_contents) batch_files /\
  concat batch_files = files /\
  Forall (fun b => b <> [] /\ fits file_contents max_chars b) batch_files.
Proof.
  unfold chunk_files.
  destruct (chunk_loop file_contents max_chars files (CS [] [] [] [] 0)) as [st|]
    eqn:Hrun; [|discriminate].
  destruct (chunk_loop_spec files _ _ Hrun) as [(Hb & Hc & Hl & Hbf & Hfit) Hcat].
  { repeat split; try constructor. unfold fits. simpl. lia. }
  simpl in Hcat.
  destruct (bool_decide (cs_current st = [])) eqn:Hnil; simpl; intros Heq;
    injection Heq as <- <-.
  - apply bool_decide_eq_true in Hnil. rewrite Hnil in Hc. symmetry in Hc.
    apply map_eq_nil in Hc. rewrite Hc, app_nil_r in Hcat. auto.
  - apply bool_decide_eq_false in Hnil.
    split; [|split].
    + rewrite Hb, map_app. simpl. unfold batch_text. by rewrite <- Hc.
    + rewrite concat_app. simpl. rewrite app_nil_r. exact Hcat.
    + apply Forall_app. split; [exact Hbf|]. constructor; [|constructor].
      split; [|exact Hfit]. intros Hn. rewrite Hn in Hc. simpl in Hc. contradiction.
Qed.

End Loop.

Lemma chunk_loop_some_iff (fc : gmap pystr pystr) (max_chars : Z) (files : list pystr) :
  forall st, (exists st', chunk_loop fc max_chars files st = Some st') <->
             (forall f, In f files -> fc !! f <> None).
Proof.
  induction files as [|f rest IH]; intros st; cbn [chunk_loop].
  - split; [intros _ f []|intros _; eauto].
  - destruct (fc !! f) as [code|] eqn:Hf.
    + destruct (_ && _); rewrite IH; split.
      * intros H g [<-|Hg]; [congruence|auto].
      * intros H g Hg. apply H. right. exact Hg.
      * intros H g [<-|Hg]; [congruence|auto].
      * intros H g Hg. apply H. right. exact Hg.
    + split; [intros [st' H]; discriminate|].
      intros H. exfalso. apply (H f); [left; reflexivity|exact Hf].
Qed.

End BatcherProofs.

Module BatcherClaims.
Import Batcher BatcherProofs Scenarios.
#[local] Arguments section_of : simpl never.
#[local] Arguments sum_len : simpl never.

Lemma lookup_map_some {A B} (g : A -> B) (l : list A) (i : nat) (x : A) :
  l !! i = Some x -> map g l !! i = Some (g x).
Proof.
  revert i. induction l as [|a l IH]; intros [|i] H; cbn in *; try discriminate.
  - by injection H as ->.
  - by apply IH.
Qed.

Lemma in_lookup {A} (l : list A) (x : A) : In x l -> exists i, l !! i = Some x.
Proof. intros H. apply list_elem_of_lookup, list_elem_of_In, H. Qed.

Lemma lookup_in {A} (l : list A) (i : nat) (x : A) : l !! i = Some x -> In x l.
Proof. intros H. apply list_elem_of_In, list_elem_of_lookup. eauto. Qed.

Lemma concat_nodup_unique {A} (bs : list (list A)) :
  NoDup (concat bs) ->
  forall x i j bi bj, bs !! i = Some bi -> bs !! j = Some bj ->
  In x bi -> In x bj -> i = j.
Proof.
  induction bs as [|b bs IH]; intros Hnd x [|i] [|j] bi bj Hi Hj Hxi Hxj;
    cbn in *; try discriminate; auto.
  - apply NoDup_app in Hnd as (_ & Hdis & _).
    injection Hi as <-. exfalso. apply (Hdis x).
    + by apply list_elem_of_In.
    + apply list_elem_of_In, in_concat. exists bj. split; [|exact Hxj].
      by apply (lookup_in _ j).
  - apply NoDup_app in Hnd as (_ & Hdis & _).
    injection Hj as <-. exfalso. apply (Hdis x).
    + by apply list_elem_of_In.
    + apply list_elem_of_In, in_concat. exists bi. split; [|exact Hxi].
      by apply (lookup_in _ i).
  - apply NoDup_app in Hnd as (_ & _ & Hnd). f_equal. eauto.
Qed.

Lemma section_le_sum (fc : gmap pystr pystr) (b : list pystr) (f : pystr) :
  In f b -> Z.of_nat (length (section_of fc f)) <= sum_len (map (section_of fc) b).
Proof.
  unfold sum_len. induction b as [|g b IH]; intros H; cbn in *; [contradiction|].
  destruct H as [->|H].
  - pose proof (sum_len_nonneg (map (section_of fc) b)). unfold sum_len in *. lia.
  - specialize (IH H). lia.
Qed.

Lemma join_length (l : list pystr) :
  l <> [] -> Z.of_nat (length (join [NL] l)) + 1 = sum_len l + Z.of_nat (length l).
Proof.
  unfold sum_len. induction l as [|x [|y l] IH]; intros Hne; [congruence| |].
  - cbn. lia.
  - change (join [NL] (x :: y :: l)) with (x ++ [NL] ++ join [NL] (y :: l)).
    rewrite !length_app. specialize (IH ltac:(discriminate)).
    cbn [fold_right length] in *. lia.
Qed.

(** X1: the loop counts only the sections, so a batch of [k >= 2] files
    has a text of at most [max_chars + k - 1] characters (the [k - 1]
    joining newlines are not counted). *)
Theorem chunk_files_text_bound (files : list pystr) (fc : gmap pystr pystr)
    (max_chars : Z) (batches : list pystr) (batch_files : list (list pystr))
    (i : nat) (b : list pystr) (t : pystr) :
  chunk_files files fc max_chars = Some (batches, batch_files) ->
  batch_files !! i = Some b -> batches !! i = Some t -> (2 <= length b)%nat ->
  Z.of_nat (length t) <= max_chars + Z.of_nat (length b) - 1.
Proof.
  intros Hc Hb Ht Hlen.
  destruct (chunk_files_spec fc max_chars files batches batch_files Hc)
    as (-> & _ & Hall).
  rewrite (lookup_map_some (batch_text fc) _ _ _ Hb) in Ht. injection Ht as <-.
  rewrite List.Forall_forall in Hall.
  destruct (Hall b (lookup_in _ _ _ Hb)) as [Hne Hfit].
  unfold batch_text. pose proof (join_length (map (section_of fc) b)) as Hj.
  rewrite length_map in Hj. specialize (Hfit Hlen).
  assert (map (section_of fc) b <> []) by (destruct b; cbn; congruence).
  specialize (Hj H). lia.
Qed.

(** C1: the batch file lists of [chunk_files] partition the input: their
    concatenation in batch order is the input list, no batch is empty, every
    file of a batch is an input file, every input file is in some batch, and
    when the input has no duplicate path no file is in two batches. *)
Theorem chunk_files_partition (files : list pystr) (file_contents : gmap pystr pystr)
    (max_chars : Z) (batches : list pystr) (batch_files : list (list pystr)) :
  chunk_files files file_contents max_chars = Some (batches, batch_files) ->
  concat batch_files = files /\
  (forall b, In b batch_files -> b <> []) /\
  (forall b x, In b batch_files -> In x b -> In x files) /\
  (forall x, In x files -> exists i b, batch_files !! i = Some b /\ In x b) /\
  (NoDup files -> forall x i j bi bj,
     batch_files !! i = Some bi -> batch_files !! j = Some bj ->
     In x bi -> In x bj -> i = j).
Proof.
  intros Hc.
  destruct (chunk_files_spec file_contents max_chars files batches batch_files Hc)
    as (_ & Hcat & Hall).
  rewrite List.Forall_forall in Hall.
  split; [exact Hcat|split; [|split; [|split]]].
  - intros b Hb. exact (proj1 (Hall b Hb)).
  - intros b x Hb Hx. rewrite <- Hcat. apply in_concat. eauto.
  - intros x Hx. rewrite <- Hcat in Hx. apply in_concat in Hx as (b & Hb & Hx).
    destruct (in_lookup _ _ Hb) as [i Hi]. eauto.
  - intros Hnd. rewrite <- Hcat in Hnd. exact (concat_nodup_unique _ Hnd).
Qed.

(** C3: a file whose section alone exceeds the budget is in no batch with
    another file, and it is not dropped: some batch is exactly that file,
    with the whole section as the batch text. *)
Theorem chunk_files_oversized_alone (files : list pystr)
    (file_contents : gmap pystr pystr) (max_chars : Z) (batches : list pystr)
    (batch_files : list (list pystr)) (f code : pystr) :
  chunk_files files file_contents max_chars = Some (batches, batch_files) ->
  In f files -> file_contents !! f = Some code ->
  max_chars < Z.of_nat (length (build_file_section f code)) ->
  (forall b, In b batch_files -> In f b -> b = [f]) /\
  (exists i, batch_files !! i = Some [f] /\
             batches !! i = Some (build_file_section f code)).
Proof.
  intros Hc Hin Hf Hbig.
  destruct (chunk_files_spec file_contents max_chars files batches batch_files Hc)
    as (Hbs & Hcat & Hall).
  rewrite List.Forall_forall in Hall.
  assert (Hsec : section_of file_contents f = build_file_section f code).
  { unfold section_of. by rewrite (lookup_total_correct _ _ _ Hf). }
  assert (Halone : forall b, In b batch_files -> In f b -> b = [f]).
  { intros b Hb Hfb. destruct (Hall b Hb) as [Hne Hfit].
    destruct b as [|g [|h b]]; [contradiction| |].
    - destruct Hfb as [->|[]]. reflexivity.
    - exfalso. assert (Hle := section_le_sum file_contents _ _ Hfb).
      unfold fits in Hfit. cbn [length] in Hfit. specialize (Hfit ltac:(lia)).
      rewrite Hsec in Hle. lia. }
  split; [exact Halone|].
  rewrite <- Hcat in Hin. apply in_concat in Hin as (b & Hb & Hfb).
  rewrite (Halone b Hb Hfb) in Hb.
  destruct (in_lookup _ _ Hb) as [i Hi]. exists i. split; [exact Hi|].
  rewrite Hbs, (lookup_map_some _ _ _ _ Hi). unfold batch_text. cbn.
  by rewrite Hsec.
Qed.

(** C10: [batches] and [batch_files] have the same length, the i-th batch
    text is the sections of the i-th file list joined by one newline, and no
    batch file list is empty. *)
Theorem chunk_files_batches_match (files : list pystr)
    (file_contents : gmap pystr pystr) (max_chars : Z) (batches : list pystr)
    (batch_files : list (list pystr)) :
  chunk_files files file_contents max_chars = Some (batches, batch_files) ->
  length batches = length batch_files /\
  (forall i fs, batch_files !! i = Some fs ->
     batches !! i = Some (join [NL]
       (map (fun f => build_file_section f (file_contents !!! f)) fs))) /\
  (forall fs, In fs batch_files -> fs <> []).
Proof.
  intros Hc.
  destruct (chunk_files_spec file_contents max_chars files batches batch_files Hc)
    as (Hbs & _ & Hall).
  rewrite List.Forall_forall in Hall. subst batches.
  split; [apply length_map|split].
  - intros i fs Hi. exact (lookup_map_some (batch_text file_contents) _ _ _ Hi).
  - intros fs Hfs. exact (proj1 (Hall fs Hfs)).
Qed.

(** Witness of C1: three files split into [[a.py; b.py]; [c.py]]
    under a budget of 80. *)
Lemma chunk_files_partition_witness :
  chunk_files demo_files demo_contents 80 =
    Some (map (batch_text demo_contents) demo_batch_files, demo_batch_files) /\
  (concat demo_batch_files = demo_files /\
   (forall b, In b demo_batch_files -> b <> []) /\
   (forall b x, In b demo_batch_files -> In x b -> In x demo_files) /\
   (forall x, In x demo_files -> exists i b, demo_batch_files !! i = Some b /\ In x b) /\
   (NoDup demo_files -> forall x i j bi bj,
      demo_batch_files !! i = Some bi -> demo_batch_files !! j = Some bj ->
      In x bi -> In x bj -> i = j)).
Proof.
  assert (H : chunk_files demo_files demo_contents 80 =
    Some (map (batch_text demo_contents) demo_batch_files, demo_batch_files))
    by (vm_compute; reflexivity).
  split; [exact H|].
  exact (chunk_files_partition demo_files demo_contents 80 _ _ H).
Defined.

(** Witness of C3: under a budget of 40 the 44-character section of
    [c.py] is a batch of its own. *)
Lemma chunk_files_oversized_alone_witness :
  chunk_files demo_files demo_contents 40 =
    Some (map (batch_text demo_contents) [[lit "a.py"]; [lit "b.py"]; [lit "c.py"]],
          [[lit "a.py"]; [lit "b.py"]; [lit "c.py"]]) /\
  In (lit "c.py") demo_files /\
  demo_contents !! lit "c.py" = Some (lit "print(x + y)") /\
  40 < Z.of_nat (length (build_file_section (lit "c.py") (lit "print(x + y)"))) /\
  ((forall b, In b [[lit "a.py"]; [lit "b.py"]; [lit "c.py"]] ->
      In (lit "c.py") b -> b = [lit "c.py"]) /\
   (exists i, [[lit "a.py"]; [lit "b.py"]; [lit "c.py"]] !! i = Some [lit "c.py"] /\
      map (batch_text demo_contents) [[lit "a.py"]; [lit "b.py"]; [lit "c.py"]] !! i =
        Some (build_file_section (lit "c.py") (lit "print(x + y)")))).
Proof.
  assert (H1 : chunk_files demo_files demo_contents 40 =
    Some (map (batch_text demo_contents) [[lit "a.py"]; [lit "b.py"]; [lit "c.py"]],
          [[lit "a.py"]; [lit "b.py"]; [lit "c.py"]])) by (vm_compute; reflexivity).
  assert (H2 : In (lit "c.py") demo_files) by (right; right; left; reflexivity).
  assert (H3 : demo_contents !! lit "c.py" = Some (lit "print(x + y)"))
    by (vm_compute; reflexivity).
  assert (H4 : 40 < Z.of_nat (length (build_file_section (lit "c.py") (lit "print(x + y)"))))
    by (vm_compute; reflexivity).
  split; [exact H1|split; [exact H2|split; [exact H3|split; [exact H4|]]]].
  exact (chunk_files_oversized_alone demo_files demo_contents 40 _ _ _ _ H1 H2 H3 H4).
Defined.

(** Witness of C10, on the split of C1's witness. *)
Lemma chunk_files_batches_match_witness :
  chunk_files demo_files demo_contents 80 =
    Some (map (batch_text demo_contents) demo_batch_files, demo_batch_files) /\
  (length (map (batch_text demo_contents) demo_batch_files) = length demo_batch_files /\
   (forall i fs, demo_batch_files !! i = Some fs ->
      map (batch_text demo_contents) demo_batch_files !! i = Some (join [NL]
        (map (fun f => build_file_section f (demo_contents !!! f)) fs))) /\
   (forall fs, In fs demo_batch_files -> fs <> [])).
Proof.
  assert (H : chunk_files demo_files demo_contents 80 =
    Some (map (batch_text demo_contents) demo_batch_files, demo_batch_files))
    by (vm_compute; reflexivity).
  split; [exact H|].
  exact (chunk_files_batches_match demo_files demo_contents 80 _ _ H).
Defined.

(** Witness of X1: the two-file batch of C2's failing input reaches the
    bound, 61 = 60 + 2 - 1. *)
Lemma chunk_files_text_bound_witness :
  chunk_files pair_files pair_contents 60 =
    Some ([batch_text pair_contents pair_files], [pair_files]) /\
  [pair_files] !! 0%nat = Some pair_files /\
  [batch_text pair_contents pair_files] !! 0%nat = Some (batch_text pair_contents pair_files) /\
  (2 <= length pair_files)%nat /\
  Z.of_nat (length (batch_text pair_contents pair_files)) <=
    60 + Z.of_nat (length pair_files) - 1.
Proof.
  assert (H1 : chunk_files pair_files pair_contents 60 =
    Some ([batch_text pair_contents pair_files], [pair_files])) by (vm_compute; reflexivity).
  assert (H2 : [pair_files] !! 0%nat = Some pair_files) by reflexivity.
  assert (H3 : [batch_text pair_contents pair_files] !! 0%nat =
    Some (batch_text pair_contents pair_files)) by reflexivity.
  assert (H4 : (2 <= length pair_files)%nat) by (cbn; lia).
  split; [exact H1|split; [exact H2|split; [exact H3|split; [exact H4|]]]].
  exact (chunk_files_text_bound pair_files pair_contents 60 _ _ 0 pair_files _ H1 H2 H3 H4).
Defined.

(** C2 (failing input): two files whose sections are 30 characters each
    are put in one batch under a budget of 60, since the sections add up to
    60; the batch text joins them with a newline and is 61 characters
    long. *)
Lemma chunk_files_join_exceeds_budget :
  chunk_files pair_files pair_contents 60 =
    Some ([batch_text pair_contents pair_files], [pair_files]) /\
  map (fun f => length (section_of pair_contents f)) pair_files = [30%nat; 30%nat] /\
  Z.of_nat (length (batch_text pair_contents pair_files)) = 61.
Proof. vm_compute. split; [reflexivity|split; reflexivity]. Qed.

End BatcherClaims.

Module StrProofs.

Lemma drop_while_length (p : Z -> bool) (s : pystr) :
  (length (drop_while p s) <= length s)%nat.
Proof. induction s as [|c s IH]; cbn; [lia|]. destruct (p c); cbn; lia. Qed.

Lemma drop_while_head (p : Z -> bool) (s r : pystr) (c : Z) :
  drop_while p s = c :: r -> p c = false.
Proof.
  induction s as [|d s IH]; cbn; [discriminate|].
  destruct (p d) eqn:Hd; [exact IH|]. intros H. by injection H as -> _.
Qed.

Lemma drop_while_split (p : Z -> bool) (s : pystr) :
  exists pre, s = pre ++ drop_while p s.
Proof.
  induction s as [|d s [pre IH]]; cbn; [exists []; reflexivity|].
  destruct (p d); [exists (d :: pre); cbn; f_equal; exact IH|exists []; reflexivity].
Qed.

Lemma drop_while_id (p : Z -> bool) (c : Z) (r : pystr) :
  p c = false -> drop_while p (c :: r) = c :: r.
Proof. intros H. cbn. by rewrite H. Qed.

Lemma prefixb_spec (p s : pystr) : prefixb p s = true <-> exists r, s = p ++ r.
Proof.
  revert s. induction p as [|c p IH]; intros [|d s]; cbn.
  - split; eauto.
  - split; eauto.
  - split; [discriminate|]. intros [r Hr]. discriminate.
  - rewrite andb_true_iff, Z.eqb_eq, IH. split.
    + intros [-> [r ->]]. eauto.
    + intros [r Hr]. injection Hr as -> ->. eauto.
Qed.

Lemma suffixb_spec (p s : pystr) : suffixb p s = true <-> exists t, s = t ++ p.
Proof.
  unfold suffixb. rewrite prefixb_spec. split.
  - intros [r Hr]. exists (rev r). rewrite <- (rev_involutive s), Hr, rev_app_distr.
    by rewrite rev_involutive.
  - intros [t ->]. exists (rev t). by rewrite rev_app_distr.
Qed.

Lemma strip_stripped (x : pystr) : stripped (strip x).
Proof.
  unfold strip, rstrip. split.
  - intros c r H.
    destruct (drop_while_split is_space (rev (lstrip x))) as [pre Hpre].
    assert (Hl : lstrip x = rev (drop_while is_space (rev (lstrip x))) ++ rev pre).
    { rewrite <- rev_app_distr, <- Hpre. by rewrite rev_involutive. }
    rewrite H in Hl. cbn in Hl. unfold lstrip in Hl.
    exact (drop_while_head _ _ _ _ Hl).
  - intros v c H.
    assert (Hd : drop_while is_space (rev (lstrip x)) = c :: rev v).
    { rewrite <- (rev_involutive (drop_while _ _)), H, rev_app_distr. reflexivity. }
    exact (drop_while_head _ _ _ _ Hd).
Qed.

Lemma stripped_last_nl (u : pystr) (v : pystr) (c : Z) :
  stripped u -> u = v ++ [c] -> c <> NL.
Proof. intros [_ H] Hu ->. specialize (H _ _ Hu). discriminate. Qed.

Lemma rstrip_id (u : pystr) : stripped u -> rstrip u = u.
Proof.
  intros [_ Hl]. unfold rstrip. destruct (rev u) as [|c r] eqn:Hr.
  - cbn. rewrite <- (rev_involutive u), Hr. reflexivity.
  - assert (Hu : u = rev r ++ [c]).
    { rewrite <- (rev_involutive u), Hr. reflexivity. }
    rewrite (drop_while_id _ _ _ (Hl _ _ Hu)), <- Hr. apply rev_involutive.
Qed.

Lemma strip_id (u : pystr) : stripped u -> strip u = u.
Proof.
  intros Hs. unfold strip. destruct u as [|c r]; [reflexivity|].
  unfold lstrip. rewrite (drop_while_id _ _ _ (proj1 Hs c r eq_refl)).
  exact (rstrip_id _ Hs).
Qed.

Lemma strip_app_nl (u : pystr) : stripped u -> strip (u ++ [NL]) = u.
Proof.
  intros Hs. destruct u as [|c r]; [reflexivity|].
  assert (Hl : lstrip ((c :: r) ++ [NL]) = (c :: r) ++ [NL]).
  { exact (drop_while_id _ c (r ++ [NL]) (proj1 Hs c r eq_refl)). }
  unfold strip. rewrite Hl. unfold rstrip. rewrite rev_app_distr.
  change (rev [NL] ++ rev (c :: r)) with (NL :: rev (c :: r)).
  replace (drop_while is_space (NL :: rev (c :: r)))
    with (drop_while is_space (rev (c :: r))) by reflexivity.
  exact (rstrip_id _ Hs).
Qed.

Lemma strip_length (x : pystr) : (length (strip x) <= length x)%nat.
Proof.
  unfold strip, rstrip, lstrip. rewrite length_rev.
  pose proof (drop_while_length is_space (rev (drop_while is_space x))).
  pose proof (drop_while_length is_space x). rewrite length_rev in *. lia.
Qed.

End StrProofs.

Module FencesProofs.
Import Fences StrProofs Scenarios.

Section Uni.
Variable uni_alnum : Z -> bool.

Lemma sub_open_id (u : pystr) : prefixb fence u = false -> sub_open uni_alnum u = u.
Proof. unfold sub_open. intros ->. reflexivity. Qed.

Lemma sub_open_shrinks (u : pystr) :
  prefixb fence u = true -> (length (sub_open uni_alnum u) < length u)%nat.
Proof.
  intros Hp. unfold sub_open. rewrite Hp.
  apply prefixb_spec in Hp as [r ->].
  replace (skipn 3 (fence ++ r)) with r by reflexivity.
  pose proof (drop_while_length (in_fence_class uni_alnum) r) as Hd.
  rewrite length_app. change (length fence) with 3%nat.
  destruct (drop_while (in_fence_class uni_alnum) r) as [|c r'];
    [cbn; lia|].
  destruct (c =? NL); cbn in *; lia.
Qed.

Lemma sub_open_length (u : pystr) : (length (sub_open uni_alnum u) <= length u)%nat.
Proof.
  destruct (prefixb fence u) eqn:Hp.
  - pose proof (sub_open_shrinks u Hp). lia.
  - rewrite (sub_open_id u Hp). lia.
Qed.

End Uni.

Lemma strip_suffix_some (p s t : pystr) : strip_suffix p s = Some t -> s = t ++ p.
Proof.
  unfold strip_suffix. destruct (suffixb p s) eqn:Hs; [|discriminate].
  intros H. injection H as <-. apply suffixb_spec in Hs as [t ->].
  rewrite length_app, Nat.add_sub, firstn_app, Nat.sub_diag, firstn_all. cbn.
  by rewrite app_nil_r.
Qed.

Lemma strip_suffix_none (p s : pystr) : strip_suffix p s = None -> suffixb p s = false.
Proof. unfold strip_suffix. by destruct (suffixb p s). Qed.

Lemma strip_suffix_len (p s t : pystr) :
  strip_suffix p s = Some t -> length s = (length t + length p)%nat.
Proof. intros H. rewrite (strip_suffix_some _ _ _ H), length_app. reflexivity. Qed.

Lemma sub_close_cases (s : pystr) :
  sub_close s = s \/ (length (sub_close s) < length s)%nat.
Proof.
  unfold sub_close.
  destruct (strip_suffix (NL :: fence) s) as [t|] eqn:H1;
    [right; rewrite (strip_suffix_len _ _ _ H1); cbn; lia|].
  destruct (strip_suffix fence s) as [t|] eqn:H2;
    [right; rewrite (strip_suffix_len _ _ _ H2); cbn; lia|].
  destruct (strip_suffix (NL :: fence ++ [NL]) s) as [t|] eqn:H3;
    [right; rewrite (strip_suffix_len _ _ _ H3), length_app; cbn; lia|].
  destruct (strip_suffix (fence ++ [NL]) s) as [t|] eqn:H4;
    [right; rewrite (strip_suffix_len _ _ _ H4), !length_app; cbn; lia|].
  left. reflexivity.
Qed.

Lemma sub_close_length (s : pystr) : (length (sub_close s) <= length s)%nat.
Proof. destruct (sub_close_cases s) as [->|H]; lia. Qed.

Lemma sub_close_shrinks (s : pystr) :
  suffixb fence s = true -> (length (sub_close s) < length s)%nat.
Proof.
  intros Hs. unfold sub_close.
  destruct (strip_suffix (NL :: fence) s) as [t|] eqn:H1;
    [rewrite (strip_suffix_len _ _ _ H1); cbn; lia|].
  unfold strip_suffix at 1. rewrite Hs.
  apply suffixb_spec in Hs as [t ->].
  rewrite length_app, Nat.add_sub, firstn_app, Nat.sub_diag, firstn_all.
  cbn. rewrite app_nil_r. lia.
Qed.

(** On a text that does not end in a newline, the rule only fires on a
    final fence. *)
Lemma sub_close_id (s : pystr) :
  (forall v c, s = v ++ [c] -> c <> NL) -> suffixb fence s = false ->
  sub_close s = s.
Proof.
  intros Hlast Hs. unfold sub_close.
  destruct (strip_suffix (NL :: fence) s) as [t|] eqn:H1.
  { apply strip_suffix_some in H1. exfalso.
    assert (suffixb fence s = true) as Hc; [|congruence].
    apply suffixb_spec. exists (t ++ [NL]). rewrite H1, <- app_assoc. reflexivity. }
  unfold strip_suffix at 1. rewrite Hs.
  destruct (strip_suffix (NL :: fence ++ [NL]) s) as [t|] eqn:H3.
  { apply strip_suffix_some in H3. exfalso.
    apply (Hlast (t ++ NL :: fence) NL); [|reflexivity].
    rewrite H3, <- app_assoc. reflexivity. }
  destruct (strip_suffix (fence ++ [NL]) s) as [t|] eqn:H4.
  { apply strip_suffix_some in H4. exfalso.
    apply (Hlast (t ++ fence) NL); [|reflexivity].
    rewrite H4, <- app_assoc. reflexivity. }
  reflexivity.
Qed.

Lemma match_ci_length (p s r : pystr) :
  match_ci p s = Some r -> length s = (length p + length r)%nat.
Proof.
  revert s. induction p as [|c p IH]; intros [|d s]; cbn; try discriminate.
  - by intros [= <-].
  - by intros [= <-].
  - destruct (ci_char c d); [|discriminate]. intros H. rewrite (IH _ H). lia.
Qed.

Lemma after_label_length (rest r : pystr) :
  after_label rest = Some r -> (length r < length rest)%nat.
Proof.
  unfold after_label.
  pose proof (drop_while_length is_space rest) as H0.
  destruct (drop_while is_space rest) as [|c r'] eqn:Hd; [discriminate|].
  destruct (c =? 58); [|discriminate]. intros [= <-].
  pose proof (drop_while_length is_space r'). cbn in H0. lia.
Qed.

Lemma first_label_length (ls : list pystr) (s r : pystr) :
  first_label ls s = Some r -> (length r < length s)%nat.
Proof.
  induction ls as [|l ls IH]; cbn; [discriminate|].
  destruct (match_ci l s) as [rest|] eqn:Hm; [|exact IH].
  destruct (after_label rest) as [r'|] eqn:Ha; [|exact IH].
  intros [= <-]. pose proof (after_label_length _ _ Ha).
  pose proof (match_ci_length _ _ _ Hm). lia.
Qed.

Lemma label_match_length (s r : pystr) :
  label_match s = Some r -> (length r < length s)%nat.
Proof.
  unfold label_match. intros H. pose proof (first_label_length _ _ _ H).
  pose proof (drop_while_length is_space s). lia.
Qed.

Lemma sub_label_length (s : pystr) : (length (sub_label s) <= length s)%nat.
Proof.
  unfold sub_label. destruct (label_match s) eqn:H; [|lia].
  pose proof (label_match_length _ _ H). lia.
Qed.

Lemma clean_nonempty (uni_alnum : Z -> bool) (s : pystr) :
  s <> [] -> clean_code_fences uni_alnum s = core uni_alnum s ++ [NL].
Proof. destruct s; [congruence|reflexivity]. Qed.

(** C5 (amended): every non-empty input is cleaned to a text that ends
    with a newline and not with two. *)
Theorem clean_code_fences_one_newline (uni_alnum : Z -> bool) (text : pystr) :
  text <> [] ->
  suffixb [NL] (clean_code_fences uni_alnum text) = true /\
  suffixb [NL; NL] (clean_code_fences uni_alnum text) = false.
Proof.
  intros Hne. rewrite (clean_nonempty _ _ Hne).
  pose proof (strip_stripped
    (sub_label (sub_close (sub_open uni_alnum (strip text))))) as Hs.
  fold (core uni_alnum text) in Hs.
  split.
  - apply suffixb_spec. eauto.
  - unfold suffixb. rewrite rev_app_distr. cbn [rev app].
    destruct (rev (core uni_alnum text)) as [|c r] eqn:Hr; [reflexivity|].
    assert (Hu : core uni_alnum text = rev r ++ [c]).
    { rewrite <- (rev_involutive (core _ _)), Hr. reflexivity. }
    pose proof (stripped_last_nl _ _ _ Hs Hu) as Hc.
    cbn [prefixb]. rewrite Z.eqb_refl.
    assert (Hn : (NL =? c) = false) by (apply Z.eqb_neq; congruence).
    rewrite Hn. reflexivity.
Qed.

(** C5 (counterexample): the empty input is cleaned to the empty text,
    which has no trailing newline. *)
Lemma clean_code_fences_empty_no_newline :
  clean_code_fences (fun _ => false) [] = [] /\
  suffixb [NL] (clean_code_fences (fun _ => false) []) = false.
Proof. split; reflexivity. Qed.

(** C6 (amended): cleaning twice gives the same text as cleaning once
    exactly when the text left by the first pass neither starts nor ends
    with a fence and does not start with a label. *)
Theorem clean_code_fences_idempotent_iff (uni_alnum : Z -> bool) (s : pystr) :
  s <> [] ->
  (clean_code_fences uni_alnum (clean_code_fences uni_alnum s) =
     clean_code_fences uni_alnum s <->
   prefixb fence (core uni_alnum s) = false /\
   suffixb fence (core uni_alnum s) = false /\
   label_match (core uni_alnum s) = None).
Proof.
  intros Hne. rewrite (clean_nonempty _ _ Hne).
  set (u := core uni_alnum s).
  assert (Hs : stripped u) by apply strip_stripped.
  assert (Hne' : u ++ [NL] <> []) by (destruct u; discriminate).
  rewrite (clean_nonempty _ _ Hne'). unfold core at 1.
  rewrite (strip_app_nl _ Hs).
  assert (Hlast : forall v c, u = v ++ [c] -> c <> NL)
    by (intros v c; exact (stripped_last_nl _ _ _ Hs)).
  split.
  - intros H. apply app_inv_tail in H.
    pose proof (sub_open_length uni_alnum u) as L1.
    pose proof (sub_close_length (sub_open uni_alnum u)) as L2.
    pose proof (sub_label_length (sub_close (sub_open uni_alnum u))) as L3.
    pose proof (strip_length (sub_label (sub_close (sub_open uni_alnum u)))) as L4.
    rewrite H in L4.
    destruct (prefixb fence u) eqn:Hp.
    { pose proof (sub_open_shrinks uni_alnum u Hp). lia. }
    rewrite (sub_open_id uni_alnum u Hp) in *.
    destruct (suffixb fence u) eqn:Hf.
    { pose proof (sub_close_shrinks u Hf). lia. }
    rewrite (sub_close_id u Hlast Hf) in *.
    split; [reflexivity|split; [reflexivity|]].
    destruct (label_match u) as [r|] eqn:Hl; [|reflexivity].
    exfalso. unfold sub_label in L3, L4. rewrite Hl in L3, L4.
    pose proof (label_match_length _ _ Hl). lia.
  - intros (Hp & Hf & Hl).
    rewrite (sub_open_id uni_alnum u Hp), (sub_close_id u Hlast Hf).
    unfold sub_label. rewrite Hl, (strip_id _ Hs). reflexivity.
Qed.

(** C6 (counterexample): a doubled label is removed one layer per call. *)
Lemma clean_code_fences_not_idempotent :
  let s := lit "Fixed code: Fixed code: x" in
  clean_code_fences (fun _ => false) s = lit "Fixed code: x" ++ [NL] /\
  clean_code_fences (fun _ => false) (clean_code_fences (fun _ => false) s) =
    lit "x" ++ [NL].
Proof. split; vm_compute; reflexivity. Qed.

(** Witness of C5: [fenced_reply] is cleaned to a text with one final
    newline. *)
Lemma clean_code_fences_one_newline_witness :
  fenced_reply <> [] /\
  (suffixb [NL] (clean_code_fences (fun _ => false) fenced_reply) = true /\
   suffixb [NL; NL] (clean_code_fences (fun _ => false) fenced_reply) = false).
Proof.
  assert (H : fenced_reply <> []) by discriminate.
  split; [exact H|].
  exact (clean_code_fences_one_newline (fun _ => false) fenced_reply H).
Defined.

(** Witness of C6, on the same reply. *)
Lemma clean_code_fences_idempotent_iff_witness :
  fenced_reply <> [] /\
  (clean_code_fences (fun _ => false) (clean_code_fences (fun _ => false) fenced_reply) =
     clean_code_fences (fun _ => false) fenced_reply <->
   prefixb fence (core (fun _ => false) fenced_reply) = false /\
   suffixb fence (core (fun _ => false) fenced_reply) = false /\
   label_match (core (fun _ => false) fenced_reply) = None).
Proof.
  assert (H : fenced_reply <> []) by discriminate.
  split; [exact H|].
  exact (clean_code_fences_idempotent_iff (fun _ => false) fenced_reply H).
Defined.

End FencesProofs.

Module DiskProofs.
Import Disk.

Lemma bak_ne (p : pystr) : p ++ lit ".bak" <> p.
Proof.
  intros H. apply (f_equal (@length Z)) in H. rewrite length_app in H.
  cbn in H. lia.
Qed.

Section Oracles.
Variables (uni_alnum : Z -> bool) (is_dir writable : pystr -> bool).

(** An existing backup is never replaced by [safe_backup]. *)
Lemma safe_backup_keeps (fs : gmap pystr pystr) (p b : pystr) :
  fs !! (p ++ lit ".bak") = Some b -> safe_backup is_dir writable fs p = (fs, []).
Proof. unfold safe_backup, exists_path. intros ->. rewrite orb_true_r. reflexivity. Qed.

(** [safe_backup] only ever adds the backup. *)
Lemma safe_backup_ne (fs : gmap pystr pystr) (p k : pystr) :
  k <> p ++ lit ".bak" -> (safe_backup is_dir writable fs p).1 !! k = fs !! k.
Proof.
  intros Hk. unfold safe_backup. cbv zeta.
  destruct (negb (exists_path is_dir fs (p ++ lit ".bak")) && exists_path is_dir fs p);
    [|reflexivity].
  destruct (fs !! p) as [content|]; [|reflexivity].
  destruct (negb (is_dir p) && writable (p ++ lit ".bak")); [|reflexivity].
  cbn [fst]. rewrite lookup_insert_ne; [reflexivity|]. intros H. apply Hk. symmetry. exact H.
Qed.

Lemma write_file_ne (fs : gmap pystr pystr) (p c k : pystr) :
  k <> p ->
  (write_file uni_alnum is_dir writable fs p c).1 !! k =
    (safe_backup is_dir writable fs p).1 !! k.
Proof.
  intros Hk. unfold write_file. destruct (safe_backup is_dir writable fs p) as [fs1 w1].
  cbn. destruct (can_write is_dir writable p); [destruct (existsb _ _)|]; cbn;
    try rewrite lookup_insert_ne by congruence; reflexivity.
Qed.

Lemma write_file_at (fs : gmap pystr pystr) (p c : pystr) :
  can_write is_dir writable p = true ->
  (write_file uni_alnum is_dir writable fs p c).1 !! p =
    Some (let cleaned := Fences.clean_code_fences uni_alnum c in
          if existsb is_surrogate cleaned then [] else cleaned).
Proof.
  intros H. unfold write_file. destruct (safe_backup is_dir writable fs p) as [fs1 w1].
  rewrite H. cbv zeta. destruct (existsb _ _); apply lookup_insert_eq.
Qed.

Lemma write_file_keeps_bak (fs : gmap pystr pystr) (p c b : pystr) :
  fs !! (p ++ lit ".bak") = Some b ->
  (write_file uni_alnum is_dir writable fs p c).1 !! (p ++ lit ".bak") = Some b.
Proof.
  intros Hb. rewrite write_file_ne by apply bak_ne.
  rewrite (safe_backup_keeps _ _ _ Hb). exact Hb.
Qed.

End Oracles.




End DiskProofs.

Module PipelineProofs.
Import Batcher Fences Pipeline.

Lemma safe_ret {A} (a : A) : safe (ret a).
Proof. intros s. eexists _, _, _. reflexivity. Qed.

Lemma safe_emit (e : event) : safe (emit e).
Proof. intros s. eexists _, _, _. reflexivity. Qed.

Lemma safe_log (msg : pystr) : safe (log msg).
Proof. apply safe_emit. Qed.

Lemma safe_get_fs : safe get_fs.
Proof. intros s. eexists _, _, _. reflexivity. Qed.

Lemma safe_put_fs (fs : gmap pystr pystr) : safe (put_fs fs).
Proof. intros s. eexists _, _, _. reflexivity. Qed.

Lemma safe_bind {A B} (m : M A) (k : A -> M B) :
  safe m -> (forall a, safe (k a)) -> safe (bind m k).
Proof.
  intros Hm Hk s. destruct (Hm s) as (v & s1 & w1 & H1).
  destruct (Hk v s1) as (v2 & s2 & w2 & H2).
  exists v2, s2, (w1 ++ w2). unfold bind. rewrite H1, H2. reflexivity.
Qed.

Lemma safe_try (m : M unit) (h : exn -> M unit) :
  (forall e, safe (h e)) -> safe (try_except m h).
Proof.
  intros Hh s. unfold try_except. destruct (m s) as [[[e|v] s1] w1].
  - destruct (Hh e s1) as (v2 & s2 & w2 & H2). rewrite H2. eauto.
  - eauto.
Qed.

Lemma safe_log_lines (msgs : list pystr) : safe (log_lines msgs).
Proof.
  induction msgs as [|m r IH]; cbn [log_lines]; [apply safe_ret|].
  apply safe_bind; [apply safe_log|intros _; exact IH].
Qed.

Lemma log_lines_run (msgs : list pystr) (s : state) :
  log_lines msgs s = (inr tt, s, map ELog msgs).
Proof.
  induction msgs as [|m r IH]; [reflexivity|]. cbn [log_lines].
  unfold bind at 1, log at 1, emit at 1. rewrite IH. reflexivity.
Qed.

Create HintDb safe_db.
#[local] Hint Resolve safe_ret safe_emit safe_log safe_log_lines safe_get_fs safe_put_fs
  safe_bind safe_try : safe_db.

Ltac safe_step :=
  repeat match goal with
  | |- safe (bind _ _) => apply safe_bind; [|intros ?]
  | |- safe (match ?x with _ => _ end) => destruct x
  | |- safe (if ?b then _ else _) => destruct b
  | |- _ => solve [eauto with safe_db]
  end.

Section WithEnv.
Variable E : env.

Lemma safe_call_model (p : pystr) : safe (call_model E p).
Proof. intros s. eexists _, _, _. reflexivity. Qed.

Lemma safe_read_file (p : pystr) : safe (read_file p).
Proof. unfold read_file. safe_step. Qed.

Lemma safe_write_file (p c : pystr) : safe (write_file_m E p c).
Proof. unfold write_file_m. safe_step. Qed.

#[local] Hint Resolve safe_call_model safe_read_file safe_write_file : safe_db.

Lemma safe_fix_file (ui : bool) (rv p : pystr) (aa it : bool) :
  safe (fix_file E ui rv p aa it).
Proof.
  unfold fix_file. apply safe_bind; [apply safe_read_file|intros [[|c r]|]].
  - apply safe_ret.
  - apply safe_try. intros _. apply safe_log.
  - apply safe_ret.
Qed.

Lemma safe_fix_files (ui : bool) (rv : pystr) (fs : list pystr) (aa it : bool) :
  safe (fix_files E ui rv fs aa it).
Proof.
  induction fs as [|f fs IH]; cbn [fix_files]; [apply safe_ret|].
  apply safe_bind; [apply safe_fix_file|intros _; exact IH].
Qed.

Lemma safe_auto_fix (ui : bool) (rv : pystr) (fs : list pystr) (aa it : bool) :
  model_ok E = true -> safe (auto_fix_project E ui rv fs aa it).
Proof. intros Hok. unfold auto_fix_project. rewrite Hok. apply safe_fix_files. Qed.

Lemma generate_content_available (p : pystr) (s : state) :
  model_ok E = true ->
  generate_content E p s =
    (inr (reply_text (model_reply E (st_calls s))),
     St (st_fs s) (S (st_calls s)) (st_asks s), [ECall p]).
Proof.
  intros Hok. unfold generate_content. rewrite Hok. cbn.
  destruct (model_reply E (st_calls s)); reflexivity.
Qed.

Lemma batch_loop_available (ui autofix apply_all : bool) (up : option pystr)
    (bs : list (pystr * list pystr)) :
  model_ok E = true ->
  forall i n s, exists outs s' w,
    batch_loop E ui autofix apply_all up i n bs s = (inr outs, s', w) /\
    length outs = length bs.
Proof.
  intros Hok. induction bs as [|[b bfl] bs IH]; intros i n s.
  - exists [], s, []. split; reflexivity.
  - cbn [batch_loop]. unfold bind at 1. cbn [log emit].
    unfold bind at 1. unfold review_project.
    rewrite (generate_content_available _ _ Hok).
    unfold bind at 1. cbn [log emit]. unfold bind at 1. cbn [log emit].
    unfold bind at 1.
    assert (Hfix : safe
      (if autofix then
         let* _ := log (lit "Processing batch " ++ batch_label i n ++ lit " (Auto-Fix)...") in
         auto_fix_project E ui (reply_text (model_reply E (st_calls s)))
           bfl apply_all true
       else ret tt)).
    { destruct autofix; [|apply safe_ret].
      apply safe_bind; [apply safe_log|intros _; exact (safe_auto_fix _ _ _ _ _ Hok)]. }
    destruct (Hfix (St (st_fs s) (S (st_calls s)) (st_asks s))) as ([] & s1 & w1 & H1).
    rewrite H1.
    unfold bind at 1.
    destruct (IH (S i) n s1) as (outs & s2 & w2 & H2 & Hlen). rewrite H2.
    eexists _, _, _. split; [reflexivity|]. cbn. lia.
Qed.

Lemma read_file_run (p : pystr) (s : state) :
  read_file p s =
    (inr (st_fs s !! p), s,
     match st_fs s !! p with
     | Some _ => []
     | None => [ELog (lit "Error reading " ++ p)]
     end).
Proof. unfold read_file, bind, get_fs, ret, log, emit. destruct (st_fs s !! p); reflexivity. Qed.

(** [read_contents] leaves the state alone, only reports unreadable files
    and gives every listed file an entry. *)
Lemma read_contents_keys (acc : gmap pystr pystr) (files : list pystr) :
  forall s, exists m w, read_contents acc files s = (inr m, s, w) /\
    (forall e, In e w -> exists msg, e = ELog msg) /\
    (forall f, acc !! f <> None -> m !! f <> None) /\
    (forall f, In f files -> m !! f <> None).
Proof.
  revert acc. induction files as [|f rest IH]; intros acc s; cbn [read_contents].
  - exists acc, []. split; [reflexivity|]. split; [intros e []|split; [auto|intros g []]].
  - set (acc' := <[f := match st_fs s !! f with Some c => c | None => [] end]> acc).
    destruct (IH acc' s) as (m & w2 & H2 & Hw2 & Hkeep & Hin).
    exists m, (match st_fs s !! f with
               | Some _ => [] | None => [ELog (lit "Error reading " ++ f)] end ++ w2).
    split; [unfold bind; rewrite read_file_run; cbv beta; unfold acc' in H2; rewrite H2;
            reflexivity|].
    assert (Hf : acc' !! f <> None) by (unfold acc'; rewrite lookup_insert_eq; discriminate).
    split; [|split].
    + intros e He. apply in_app_or in He as [He|He]; [|auto].
      destruct (st_fs s !! f); [destruct He|destruct He as [<-|[]]; eauto].
    + intros g Hg. apply Hkeep. unfold acc'.
      destruct (decide (g = f)) as [->|Hne]; [exact Hf|].
      rewrite lookup_insert_ne by congruence. exact Hg.
    + intros g [<-|Hg]; [apply Hkeep; exact Hf|apply Hin; exact Hg].
Qed.


End WithEnv.

Lemma safe_bind_with {A B} (P : A -> Prop) (m : M A) (k : A -> M B) :
  (forall s, exists v s' w, m s = (inr v, s', w) /\ P v) ->
  (forall a, P a -> safe (k a)) -> safe (bind m k).
Proof.
  intros Hm Hk s. destruct (Hm s) as (v & s1 & w1 & H1 & Hv).
  destruct (Hk v Hv s1) as (v2 & s2 & w2 & H2).
  exists v2, s2, (w1 ++ w2). unfold bind. rewrite H1, H2. reflexivity.
Qed.

End PipelineProofs.

Module PipelineClaims.
Import Batcher Fences Pipeline PipelineProofs Scenarios.
#[local] Arguments lit : simpl never.
#[local] Arguments fix_prompt : simpl never.
#[local] Arguments apply_question : simpl never.

Lemma bind_get_fs {B} (k : gmap pystr pystr -> M B) (s : state) :
  bind get_fs k s = k (st_fs s) s.
Proof. unfold bind, get_fs. destruct (k (st_fs s) s) as [[r2 s2] w2]. reflexivity. Qed.

Lemma bind_emit {B} (e : event) (k : unit -> M B) (s : state) :
  (bind (emit e) k s).2 = e :: (k tt s).2.
Proof. unfold bind, emit. destruct (k tt s) as [[r2 s2] w2]. reflexivity. Qed.

Lemma flat_map_all_nil {A B} (g : A -> list B) (l : list A) :
  (forall x, In x l -> g x = []) -> flat_map g l = [].
Proof.
  induction l as [|x l IH]; intros H; [reflexivity|].
  cbn [flat_map]. rewrite H by (left; reflexivity).
  apply IH. intros y Hy. apply H. right. exact Hy.
Qed.




(** C8: with [apply_all] false and [interactive] true, a file whose
    confirmation question is answered with a rejection is processed without
    any change to the disk: the file keeps its content and no backup is
    made. *)
Theorem fix_file_rejected_keeps_disk (E : env) (ui : bool) (review p : pystr)
    (s : state) :
  user_rejects E ui (st_asks s) ->
  st_fs (fix_file E ui review p false true s).1.2 = st_fs s.
Proof.
  intros Hrej. destruct s as [fs calls asks]. cbn [st_asks] in Hrej.
  unfold fix_file, read_file, try_except, fix_attempt, bind, get_fs, ret,
    call_model, log, emit, next_ask, raise, write_file_m, put_fs.
  cbn [st_fs st_calls st_asks].
  destruct (fs !! p) as [[|c r]|] eqn:Hp; [reflexivity| |reflexivity].
  cbn [st_fs st_calls st_asks].
  destruct (model_reply E calls) as [t|msg]; [|reflexivity].
  destruct ui.
  - destruct Hrej as [Hpf Hans]. rewrite Hpf. cbn [st_fs st_calls st_asks].
    rewrite Hans. reflexivity.
  - destruct Hrej as (line & Hline & Hno). cbn [st_fs st_calls st_asks].
    rewrite Hline, Hno. reflexivity.
Qed.



(** Witness of C8: the answer of [prompt_func] to the first question is
    "no". *)
Lemma fix_file_rejected_keeps_disk_witness :
  user_rejects (proj_env true [lit "a.py"]) true 0 /\
  st_fs (fix_file (proj_env true [lit "a.py"]) true (lit "review") (lit "proj/a.py")
           false true (St proj_fs 0 0)).1.2 = proj_fs.
Proof.
  assert (H : user_rejects (proj_env true [lit "a.py"]) true (st_asks (St proj_fs 0 0)))
    by (split; reflexivity).
  split; [exact H|].
  exact (fix_file_rejected_keeps_disk (proj_env true [lit "a.py"]) true (lit "review")
           (lit "proj/a.py") (St proj_fs 0 0) H).
Defined.


End PipelineClaims.

Module BatcherExtras.
Import Batcher.
#[local] Arguments build_file_section : simpl never.



Lemma neighbours_snoc2 {A} (R : A -> A -> Prop) (l : list A) (x y : A) :
  neighbours R (l ++ [x]) -> R x y -> neighbours R (l ++ [x; y]).
Proof.
  induction l as [|a [|b l] IH]; cbn; [tauto|tauto|].
  intros [Hab Hr] Hxy. split; [exact Hab|]. apply IH; assumption.
Qed.

Lemma neighbours_last {A} (R : A -> A -> Prop) (l : list A) (x x' : A) :
  (forall a, R a x -> R a x') ->
  neighbours R (l ++ [x]) -> neighbours R (l ++ [x']).
Proof.
  intros Hx. induction l as [|a [|b l] IH]; cbn;
    [tauto|intros [H _]; split; [apply Hx; exact H|exact I]|].
  intros [Hab Hr]. split; [exact Hab|]. apply IH. exact Hr.
Qed.

Lemma neighbours_lookup {A} (R : A -> A -> Prop) (l : list A) :
  neighbours R l -> forall i a b, l !! i = Some a -> l !! S i = Some b -> R a b.
Proof.
  induction l as [|x [|y l] IH]; intros Hn i a b Ha Hb.
  - discriminate.
  - destruct i; discriminate.
  - destruct Hn as [Hxy Hr]. destruct i as [|i].
    + injection Ha as <-. injection Hb as <-. exact Hxy.
    + apply (IH Hr i); assumption.
Qed.

Lemma neighbours_app_l {A} (R : A -> A -> Prop) (l : list A) (x : A) :
  neighbours R (l ++ [x]) -> neighbours R l.
Proof.
  induction l as [|a [|b l] IH]; cbn; [tauto|tauto|].
  intros [Hab Hr]. split; [exact Hab|]. apply IH. exact Hr.
Qed.

Section Greedy.
Variable fc : gmap pystr pystr.
Variable max_chars : Z.

#[local] Abbreviation overflows := (overflows fc max_chars).

Lemma sum_len_snoc (l : list pystr) (s : pystr) :
  sum_len (l ++ [s]) = sum_len l + Z.of_nat (length s).
Proof. unfold sum_len. rewrite fold_right_app. cbn. induction l; cbn; lia. Qed.

Lemma chunk_loop_greedy (files : list pystr) :
  forall st st', chunk_loop fc max_chars files st = Some st' ->
  cs_length st = sum_len (map (section_of fc) (cs_current_files st)) ->
  (cs_current_files st = [] -> cs_batch_files st = []) ->
  neighbours overflows (cs_batch_files st ++ [cs_current_files st]) ->
  (cs_length st' = sum_len (map (section_of fc) (cs_current_files st')) /\
   (cs_current_files st' = [] -> cs_batch_files st' = []) /\
   neighbours overflows (cs_batch_files st' ++ [cs_current_files st'])).
Proof.
  induction files as [|f rest IH]; intros st st' Hrun Hlen Hemp Hn; cbn [chunk_loop] in Hrun.
  - injection Hrun as <-. auto.
  - destruct (fc !! f) as [code|] eqn:Hf; [|discriminate].
    assert (Hsec : section_of fc f = build_file_section f code)
      by (unfold section_of; rewrite (lookup_total_correct _ _ _ Hf); reflexivity).
    destruct (negb (bool_decide (cs_current st = [])) &&
              (max_chars <? cs_length st + Z.of_nat (length (build_file_section f code))))
      eqn:Hc.
    + apply andb_prop in Hc as [Hne Hlt]. apply Z.ltb_lt in Hlt.
      apply (IH _ _ Hrun); cbn [cs_length cs_current_files cs_batch_files].
      * cbn [map]. rewrite Hsec. unfold sum_len. cbn. lia.
      * discriminate.
      * rewrite <- app_assoc. cbn [app].
        apply neighbours_snoc2; [exact Hn|]. cbn. rewrite Hsec, <- Hlen. exact Hlt.
    + apply (IH _ _ Hrun); cbn [cs_length cs_current_files cs_batch_files].
      * rewrite map_app. cbn [map]. rewrite sum_len_snoc, Hsec, Hlen. reflexivity.
      * intros H. destruct (cs_current_files st); discriminate.
      * destruct (cs_current_files st) as [|g c] eqn:Hcur.
        { rewrite (Hemp eq_refl). cbn. exact I. }
        apply (neighbours_last _ _ (g :: c)); [|exact Hn].
        intros a. cbn. tauto.
Qed.

End Greedy.

(** X3: [chunk_files] fills batches greedily: for two neighbouring batches,
    the first file of the second one would have pushed the running length
    of the first one (its section lengths added up) over [max_chars]. *)
Theorem chunk_files_greedy (files : list pystr) (file_contents : gmap pystr pystr)
    (max_chars : Z) (batches : list pystr) (batch_files : list (list pystr)) :
  chunk_files files file_contents max_chars = Some (batches, batch_files) ->
  forall i b g c, batch_files !! i = Some b -> batch_files !! S i = Some (g :: c) ->
  max_chars < sum_len (map (section_of file_contents) b) +
              Z.of_nat (length (section_of file_contents g)).
Proof.
  unfold chunk_files. intros Hrun.
  destruct (chunk_loop _ _ _ _) as [st|] eqn:Hst; [|discriminate].
  destruct (chunk_loop_greedy file_contents max_chars files _ _ Hst)
    as (_ & Hemp & Hn); cbn; [reflexivity|reflexivity|exact I|].
  intros i b g c Hb Hg.
  assert (Hn' : neighbours (Batcher.overflows file_contents max_chars) batch_files).
  { destruct (negb _) eqn:Hne; injection Hrun as _ <-; [exact Hn|].
    exact (neighbours_app_l _ _ _ Hn). }
  exact (neighbours_lookup _ _ Hn' i b (g :: c) Hb Hg).
Qed.

(** Witness of X3: in the split [[a.py; b.py]; [c.py]] under 80, the
    section of [c.py] does not fit after the first batch (74 + 44 > 80). *)
Lemma chunk_files_greedy_witness :
  chunk_files Scenarios.demo_files Scenarios.demo_contents 80 =
    Some (map (batch_text Scenarios.demo_contents) Scenarios.demo_batch_files,
          Scenarios.demo_batch_files) /\
  Scenarios.demo_batch_files !! 0%nat = Some [lit "a.py"; lit "b.py"] /\
  Scenarios.demo_batch_files !! 1%nat = Some [lit "c.py"] /\
  80 < sum_len (map (section_of Scenarios.demo_contents) [lit "a.py"; lit "b.py"]) +
       Z.of_nat (length (section_of Scenarios.demo_contents (lit "c.py"))).
Proof.
  assert (H : chunk_files Scenarios.demo_files Scenarios.demo_contents 80 =
    Some (map (batch_text Scenarios.demo_contents) Scenarios.demo_batch_files,
          Scenarios.demo_batch_files)) by (vm_compute; reflexivity).
  assert (H0 : Scenarios.demo_batch_files !! 0%nat = Some [lit "a.py"; lit "b.py"])
    by reflexivity.
  assert (H1 : Scenarios.demo_batch_files !! 1%nat = Some [lit "c.py"]) by reflexivity.
  split; [exact H|split; [exact H0|split; [exact H1|]]].
  exact (chunk_files_greedy _ _ _ _ _ H 0 _ _ [] H0 H1).
Defined.

End BatcherExtras.

Module CollectorExtras.
Import Pipeline.

Lemma str_leb_total (a b : pystr) : str_leb a b = false -> str_leb b a = true.
Proof.
  revert b. induction a as [|x a IH]; intros [|y b]; cbn; try discriminate; auto.
  intros H. apply orb_false_elim in H as [Hlt Heq].
  apply Z.ltb_ge in Hlt.
  destruct (Z.eq_dec x y) as [->|Hne].
  - rewrite Z.eqb_refl in Heq. cbn in Heq. rewrite Z.eqb_refl, (IH b Heq).
    apply orb_true_r.
  - apply orb_true_intro. left. apply Z.ltb_lt. lia.
Qed.

Lemma insert_sorted_sorted (x : pystr) (l : list pystr) :
  Sorted (fun a b => str_leb a b = true) l ->
  Sorted (fun a b => str_leb a b = true) (insert_sorted x l).
Proof.
  induction l as [|y l IH]; intros Hs; cbn.
  - repeat constructor.
  - destruct (str_leb x y) eqn:Hxy.
    + constructor; [exact Hs|constructor; exact Hxy].
    + apply Sorted_inv in Hs as [Hs Hhd]. constructor; [apply IH; exact Hs|].
      destruct l as [|z l]; cbn.
      * constructor. apply str_leb_total. exact Hxy.
      * destruct (str_leb x z); constructor;
          [apply str_leb_total; exact Hxy|inversion Hhd; assumption].
Qed.

Lemma insert_sorted_in (x y : pystr) (l : list pystr) :
  In y (insert_sorted x l) <-> y = x \/ In y l.
Proof.
  induction l as [|z l IH]; cbn; [intuition congruence|].
  destruct (str_leb x z); cbn; [intuition congruence|]. rewrite IH. tauto.
Qed.

Lemma sort_strs_in (y : pystr) (l : list pystr) : In y (sort_strs l) <-> In y l.
Proof.
  induction l as [|x l IH]; cbn; [tauto|].
  rewrite insert_sorted_in, IH. intuition congruence.
Qed.

(** X4: [get_code_files] returns exactly the paths [os.path.join(root,
    name)] of the names [name] the walk lists under a directory [root]
    whose lower-cased name ends in one of the supported suffixes and whose
    path has no ignored directory ([node_modules], [.git], [__pycache__],
    [dist], [build]) among its components. *)
Theorem get_code_files_in (E : env) (directory p : pystr) :
  In p (get_code_files E directory) <->
  exists root names name,
    In (root, names) (walk E directory) /\ In name names /\
    has_supported_suffix name = true /\ p = os_path_join root name /\
    in_ignored_dir p = false.
Proof.
  unfold get_code_files. rewrite sort_strs_in, in_flat_map. split.
  - intros ([root names] & Hw & Hin). apply in_flat_map in Hin as (name & Hn & Hp).
    destruct (has_supported_suffix name) eqn:Hs; [|destruct Hp].
    cbn zeta in Hp. destruct (in_ignored_dir (os_path_join root name)) eqn:Hi; [destruct Hp|].
    destruct Hp as [<-|[]]. exists root, names, name. auto.
  - intros (root & names & name & Hw & Hn & Hs & -> & Hi).
    exists (root, names). split; [exact Hw|]. apply in_flat_map.
    exists name. split; [exact Hn|]. rewrite Hs. cbn zeta. rewrite Hi. left. reflexivity.
Qed.

(** X5: the list [get_code_files] returns is sorted in Python's string
    order (code point by code point, a prefix first). *)
Theorem get_code_files_sorted (E : env) (directory : pystr) :
  Sorted (fun a b => str_leb a b = true) (get_code_files E directory).
Proof.
  unfold get_code_files, sort_strs.
  induction (flat_map _ _) as [|x l IH]; cbn; [constructor|].
  apply insert_sorted_sorted. exact IH.
Qed.

Lemma lower_char_length (c : Z) : (1 <= length (lower_char c))%nat.
Proof.
  unfold lower_char. destruct (_ && _); [cbn; lia|].
  destruct (c =? 304); [cbn; lia|]. destruct (c =? 8490); cbn; lia.
Qed.

(** X6: the console confirmation of [auto_fix_project] accepts an answer
    exactly when, once stripped of surrounding white space, it is "y" or
    "Y"; any other answer ("yes" included) skips the file. *)
Theorem is_yes_iff (line : pystr) :
  is_yes line = true <-> strip line = lit "y" \/ strip line = lit "Y".
Proof.
  unfold is_yes. rewrite bool_decide_eq_true. unfold py_lower.
  change (lit "y") with [121]. change (lit "Y") with [89].
  destruct (strip line) as [|c [|d r]].
  - cbn. split; [discriminate|intros [H|H]; discriminate].
  - cbn. rewrite app_nil_r. split.
    + intros H. unfold lower_char in H.
      destruct ((65 <=? c) && (c <=? 90)) eqn:Hr.
      * apply andb_prop in Hr as [H1 H2]. apply Z.leb_le in H1, H2.
        injection H as H. right. cbn. f_equal. lia.
      * destruct (c =? 304); [discriminate|].
        destruct (c =? 8490); [discriminate|]. left. exact H.
    + intros [H|H]; injection H as ->; reflexivity.
  - split; [|intros [H|H]; discriminate].
    intros H. exfalso. cbn [flat_map] in H.
    pose proof (lower_char_length c) as L1. pose proof (lower_char_length d) as L2.
    apply (f_equal (@length Z)) in H. rewrite !length_app in H. cbn in H. lia.
Qed.

End CollectorExtras.

Module FencesExtras.
Import Fences StrProofs FencesProofs.

Lemma drop_while_app_all (p : Z -> bool) (l s : pystr) :
  forallb p l = true -> drop_while p (l ++ s) = drop_while p s.
Proof.
  induction l as [|c l IH]; cbn; [reflexivity|].
  intros H. apply andb_prop in H as [Hc Hl]. rewrite Hc. apply IH. exact Hl.
Qed.

Lemma strip_suffix_app (p t : pystr) : strip_suffix p (t ++ p) = Some t.
Proof.
  unfold strip_suffix.
  assert (Hs : suffixb p (t ++ p) = true) by (apply suffixb_spec; eauto).
  rewrite Hs, length_app, Nat.add_sub, firstn_app, firstn_all, Nat.sub_diag.
  cbn. rewrite app_nil_r. reflexivity.
Qed.

(** X7: a reply that is one fenced block, an opening fence with a language
    tag of [[\w+-]] characters and a newline, then code that has no white
    space at either end and does not start with a label, then a newline
    and the closing fence, is cleaned to exactly that code and one final
    newline. *)
Theorem clean_code_fences_fenced_block (uni_alnum : Z -> bool) (lang code : pystr) :
  forallb (in_fence_class uni_alnum) lang = true ->
  code <> [] -> stripped code -> label_match code = None ->
  clean_code_fences uni_alnum (fence ++ lang ++ [NL] ++ code ++ [NL] ++ fence) =
  code ++ [NL].
Proof.
  intros Hlang Hne Hs Hl.
  set (text := fence ++ lang ++ [NL] ++ code ++ [NL] ++ fence).
  assert (Htext : text <> []) by discriminate.
  assert (Hst : stripped text).
  { split.
    - intros c r H. injection H as <- _. reflexivity.
    - intros v c H. unfold text in H.
      assert (Hend : text = (fence ++ lang ++ [NL] ++ code ++ [NL] ++ [96; 96]) ++ [96])
        by (unfold text; change fence with [96; 96; 96] at 2;
            rewrite <- !app_assoc; reflexivity).
      unfold text in Hend. rewrite Hend in H. apply app_inj_tail in H as [_ <-].
      reflexivity. }
  rewrite (clean_nonempty _ _ Htext). unfold core. rewrite (strip_id _ Hst).
  assert (Hopen : sub_open uni_alnum text = code ++ [NL] ++ fence).
  { unfold sub_open.
    rewrite (proj2 (prefixb_spec fence text) (ex_intro _ _ eq_refl)). unfold text.
    change (skipn 3 (fence ++ lang ++ [NL] ++ code ++ [NL] ++ fence))
      with (lang ++ [NL] ++ code ++ [NL] ++ fence).
    rewrite (drop_while_app_all _ _ _ Hlang). reflexivity. }
  rewrite Hopen.
  assert (Hclose : sub_close (code ++ [NL] ++ fence) = code)
    by (unfold sub_close; exact (f_equal (fun o => match o with Some t => t | None => _ end)
          (strip_suffix_app (NL :: fence) code))).
  rewrite Hclose. unfold sub_label. rewrite Hl, (strip_id _ Hs). reflexivity.
Qed.

(** X8: a text that, once stripped, neither starts nor ends with a fence
    and does not start with a label is cleaned to its stripped form and one
    final newline: the code itself is left alone. *)
Theorem clean_code_fences_plain (uni_alnum : Z -> bool) (text : pystr) :
  text <> [] ->
  prefixb fence (strip text) = false -> suffixb fence (strip text) = false ->
  label_match (strip text) = None ->
  clean_code_fences uni_alnum text = strip text ++ [NL].
Proof.
  intros Hne Hp Hf Hl.
  assert (Hs : stripped (strip text)) by apply strip_stripped.
  rewrite (clean_nonempty _ _ Hne). unfold core.
  rewrite (sub_open_id uni_alnum _ Hp).
  rewrite (sub_close_id _ (fun v c H => stripped_last_nl _ v c Hs H) Hf).
  unfold sub_label. rewrite Hl, (strip_id _ Hs). reflexivity.
Qed.

(** Witness of X7: a [python] block holding [x = 1]. *)
Lemma clean_code_fences_fenced_block_witness :
  forallb (in_fence_class (fun _ => false)) (lit "python") = true /\
  lit "x = 1" <> [] /\ stripped (lit "x = 1") /\ label_match (lit "x = 1") = None /\
  clean_code_fences (fun _ => false)
    (fence ++ lit "python" ++ [NL] ++ lit "x = 1" ++ [NL] ++ fence) = lit "x = 1" ++ [NL].
Proof.
  assert (H1 : forallb (in_fence_class (fun _ => false)) (lit "python") = true)
    by reflexivity.
  assert (H2 : lit "x = 1" <> []) by discriminate.
  assert (H3 : stripped (lit "x = 1")).
  { split.
    - intros c r H. injection H as <- _. reflexivity.
    - intros v c H. change (lit "x = 1") with ([120; 32; 61; 32] ++ [49]) in H.
      apply app_inj_tail in H as [_ <-]. reflexivity. }
  assert (H4 : label_match (lit "x = 1") = None) by (vm_compute; reflexivity).
  split; [exact H1|split; [exact H2|split; [exact H3|split; [exact H4|]]]].
  exact (clean_code_fences_fenced_block _ _ _ H1 H2 H3 H4).
Defined.

(** Witness of X8: plain code with surrounding blank lines. *)
Lemma clean_code_fences_plain_witness :
  let text := [NL] ++ lit "x = 1" ++ [NL; NL] in
  text <> [] /\ prefixb fence (strip text) = false /\ suffixb fence (strip text) = false /\
  label_match (strip text) = None /\
  clean_code_fences (fun _ => false) text = strip text ++ [NL].
Proof.
  intros text.
  assert (H1 : text <> []) by discriminate.
  assert (H2 : prefixb fence (strip text) = false) by (vm_compute; reflexivity).
  assert (H3 : suffixb fence (strip text) = false) by (vm_compute; reflexivity).
  assert (H4 : label_match (strip text) = None) by (vm_compute; reflexivity).
  split; [exact H1|split; [exact H2|split; [exact H3|split; [exact H4|]]]].
  exact (clean_code_fences_plain _ _ H1 H2 H3 H4).
Defined.

End FencesExtras.

Module PipelineExtras.
Import Batcher Fences Pipeline PipelineProofs.
#[local] Arguments lit : simpl never.
#[local] Arguments fix_prompt : simpl never.






Lemma keeps_ret {A} (a : A) : keeps_fs (ret a).
Proof. intros s. reflexivity. Qed.
Lemma keeps_raise {A} (e : exn) : keeps_fs (A := A) (raise e).
Proof. intros s. reflexivity. Qed.
Lemma keeps_emit (e : event) : keeps_fs (emit e).
Proof. intros s. reflexivity. Qed.
Lemma keeps_log (msg : pystr) : keeps_fs (log msg).
Proof. intros s. reflexivity. Qed.
Lemma keeps_get_fs : keeps_fs get_fs.
Proof. intros s. reflexivity. Qed.
Lemma keeps_call_model (E : env) (p : pystr) : keeps_fs (call_model E p).
Proof. intros s. reflexivity. Qed.
Lemma keeps_next_ask (q : pystr) : keeps_fs (next_ask q).
Proof. intros s. reflexivity. Qed.

Lemma keeps_bind {A B} (m : M A) (k : A -> M B) :
  keeps_fs m -> (forall a, keeps_fs (k a)) -> keeps_fs (bind m k).
Proof.
  intros Hm Hk s. specialize (Hm s). unfold bind.
  destruct (m s) as [[[e|a] s1] w1]; cbn in *; [exact Hm|].
  specialize (Hk a s1). destruct (k a s1) as [[r2 s2] w2]. cbn in *. congruence.
Qed.

Lemma keeps_try (m : M unit) (h : exn -> M unit) :
  keeps_fs m -> (forall e, keeps_fs (h e)) -> keeps_fs (try_except m h).
Proof.
  intros Hm Hh s. specialize (Hm s). unfold try_except.
  destruct (m s) as [[[e|a] s1] w1]; cbn in *; [|exact Hm].
  specialize (Hh e s1). destruct (h e s1) as [[r2 s2] w2]. cbn in *. congruence.
Qed.

Create HintDb keeps_db.
#[local] Hint Resolve keeps_ret keeps_raise keeps_emit keeps_log keeps_get_fs
  keeps_call_model keeps_next_ask keeps_bind keeps_try : keeps_db.

Ltac keeps_step :=
  repeat match goal with
  | |- keeps_fs (bind _ _) => apply keeps_bind; [|intros ?]
  | |- keeps_fs (try_except _ _) => apply keeps_try; [|intros ?]
  | |- keeps_fs (match ?x with _ => _ end) => destruct x
  | |- keeps_fs (if ?b then _ else _) => destruct b
  | |- _ => solve [eauto with keeps_db]
  end.

Lemma keeps_read_file (p : pystr) : keeps_fs (read_file p).
Proof. unfold read_file. keeps_step. Qed.
#[local] Hint Resolve keeps_read_file : keeps_db.

Lemma keeps_fix_files_skip (E : env) (ui : bool) (review : pystr) (files : list pystr) :
  keeps_fs (fix_files E ui review files false false).
Proof.
  induction files as [|f rest IH]; cbn [fix_files]; [apply keeps_ret|].
  apply keeps_bind; [|intros _; exact IH].
  unfold fix_file, fix_attempt. keeps_step.
Qed.

(** X13: [auto_fix_project] with neither [apply_all] nor [interactive]
    only reports "Skipped (non-interactive)": it never changes the disk,
    whatever the model answers. *)
Theorem auto_fix_project_non_interactive_keeps_disk (E : env) (ui : bool)
    (review : pystr) (files : list pystr) (s : state) :
  st_fs (auto_fix_project E ui review files false false s).1.2 = st_fs s.
Proof.
  unfold auto_fix_project. destruct (negb (model_ok E)).
  - reflexivity.
  - apply keeps_fix_files_skip.
Qed.

Lemma keeps_read_contents (acc : gmap pystr pystr) (files : list pystr) :
  keeps_fs (read_contents acc files).
Proof.
  revert acc. induction files as [|f rest IH]; intros acc; cbn [read_contents];
    [apply keeps_ret|].
  apply keeps_bind; [apply keeps_read_file|intros c; apply IH].
Qed.

Lemma keeps_batch_loop_review (E : env) (ui apply_all : bool) (up : option pystr)
    (bs : list (pystr * list pystr)) :
  forall i n, keeps_fs (batch_loop E ui false apply_all up i n bs).
Proof.
  induction bs as [|[b bf] rest IH]; intros i n; cbn [batch_loop]; [apply keeps_ret|].
  unfold review_project, generate_content. keeps_step.
Qed.

(** A computation that changes no file outside [ks], whatever its
    outcome. *)
Definition keeps_except (ks : list pystr) {A} (m : M A) : Prop :=
  forall s k, ~ In k ks -> st_fs (m s).1.2 !! k = st_fs s !! k.

Lemma keeps_except_of (ks : list pystr) {A} (m : M A) : keeps_fs m -> keeps_except ks m.
Proof. intros H s k _. rewrite H. reflexivity. Qed.

Lemma keeps_except_bind (ks : list pystr) {A B} (m : M A) (k : A -> M B) :
  keeps_except ks m -> (forall a, keeps_except ks (k a)) -> keeps_except ks (bind m k).
Proof.
  intros Hm Hk s x Hx. specialize (Hm s x Hx). unfold bind.
  destruct (m s) as [[[e|a] s1] w1]; cbn in *; [exact Hm|].
  specialize (Hk a s1 x Hx). destruct (k a s1) as [[r2 s2] w2]. cbn in *. congruence.
Qed.

Lemma keeps_except_save (E : env) (ks : list pystr) (review filename : pystr) :
  In filename ks -> keeps_except ks (save_to_excel E review filename).
Proof.
  intros Hin s k Hk. unfold save_to_excel.
  destruct (has_openpyxl E); [|reflexivity].
  destruct (negb (forallb cell_ok (splitlines review))); [reflexivity|].
  destruct (negb (Disk.can_write (is_dir E) (writable E) filename)); [reflexivity|].
  unfold bind, get_fs, put_fs, log, emit. cbn [st_fs fst snd].
  rewrite lookup_insert_ne; [reflexivity|]. intros ->. exact (Hk Hin).
Qed.

Lemma keeps_except_json (E : env) (ks : list pystr) (review : pystr) :
  In json_filename ks -> keeps_except ks (export_review_json E review).
Proof.
  intros Hin s k Hk. unfold export_review_json.
  destruct (Disk.can_write (is_dir E) (writable E) json_filename); [|reflexivity].
  unfold bind, get_fs, put_fs, log, emit. cbn [st_fs fst snd].
  rewrite lookup_insert_ne; [reflexivity|]. intros H. apply Hk. rewrite <- H. exact Hin.
Qed.

(** X14: without [autofix], [run_pipeline] changes no file but the two
    exports, [excel_filename] and [project_review.json]: it only reads the
    sources and asks for the reviews, whatever the model answers and
    whether or not the run raises. *)
Theorem run_pipeline_review_only_keeps_sources (E : env) (path : pystr)
    (export_json apply_all : bool) (userprompt : option pystr) (max_chars : Z)
    (ui : bool) (excel_filename : pystr) (interactive : bool) (s : state) (k : pystr) :
  k <> excel_filename -> k <> json_filename ->
  st_fs (run_pipeline E path export_json false apply_all userprompt max_chars ui
           excel_filename interactive s).1.2 !! k = st_fs s !! k.
Proof.
  intros Hk1 Hk2.
  enough (H : keeps_except [excel_filename; json_filename]
                (run_pipeline E path export_json false apply_all userprompt
                   max_chars ui excel_filename interactive)).
  { apply H. intros [Hx|[Hx|[]]]; congruence. }
  unfold run_pipeline.
  apply keeps_except_bind; [apply keeps_except_of, keeps_emit|intros _].
  apply keeps_except_bind; [apply keeps_except_of, keeps_get_fs|intros fs].
  destruct (negb _); [apply keeps_except_of, keeps_log|].
  destruct (get_code_files E path); [apply keeps_except_of, keeps_log|].
  apply keeps_except_bind; [apply keeps_except_of, keeps_log|intros _].
  apply keeps_except_bind; [apply keeps_except_of, keeps_read_contents|intros contents].
  destruct (chunk_files _ _ _) as [[batches bf]|]; [|apply keeps_except_of, keeps_raise].
  apply keeps_except_bind; [apply keeps_except_of, keeps_batch_loop_review|intros all].
  cbv zeta.
  apply keeps_except_bind; [apply keeps_except_save; left; reflexivity|intros _].
  apply keeps_except_bind; [|intros _; apply keeps_except_of, keeps_log].
  destruct export_json.
  - apply keeps_except_json. right. left. reflexivity.
  - apply keeps_except_of, keeps_ret.
Qed.

Lemma batch_loop_outputs (E : env) (ui autofix apply_all : bool) (up : option pystr)
    (bs : list (pystr * list pystr)) :
  model_ok E = true ->
  forall i n s, exists outs s' w,
    batch_loop E ui autofix apply_all up i n bs s = (inr outs, s', w) /\
    Forall (fun o => exists k, o = reply_text (model_reply E k)) outs.
Proof.
  intros Hok. induction bs as [|[b bfl] bs IH]; intros i n s.
  - exists [], s, []. split; [reflexivity|constructor].
  - cbn [batch_loop]. unfold bind at 1. cbn [log emit].
    unfold bind at 1. unfold review_project.
    rewrite (generate_content_available _ _ _ Hok).
    unfold bind at 1. cbn [log emit]. unfold bind at 1. cbn [log emit].
    unfold bind at 1.
    assert (Hfix : safe
      (if autofix then
         let* _ := log (lit "Processing batch " ++ batch_label i n ++ lit " (Auto-Fix)...") in
         auto_fix_project E ui (reply_text (model_reply E (st_calls s)))
           bfl apply_all true
       else ret tt)).
    { destruct autofix; [|apply safe_ret].
      apply safe_bind; [apply safe_log|intros _; exact (safe_auto_fix _ _ _ _ _ _ Hok)]. }
    destruct (Hfix (St (st_fs s) (S (st_calls s)) (st_asks s))) as ([] & s1 & w1 & H1).
    rewrite H1.
    unfold bind at 1.
    destruct (IH (S i) n s1) as (outs & s2 & w2 & H2 & Hall). rewrite H2.
    eexists _, _, _. split; [reflexivity|]. constructor; [eauto|exact Hall].
Qed.

Lemma join_chars (sep : pystr) (xs : list pystr) (c : Z) :
  In c (join sep xs) -> In c sep \/ exists x, In x xs /\ In c x.
Proof.
  induction xs as [|x [|y r] IH]; cbn [join].
  - intros [].
  - intros H. right. exists x. split; [left; reflexivity|exact H].
  - intros H. apply in_app_or in H as [H|H]; [right; exists x; split; [left|]; auto|].
    apply in_app_or in H as [H|H]; [left; exact H|].
    destruct (IH H) as [Hs|(z & Hz & Hc)]; [left; exact Hs|].
    right. exists z. split; [right; exact Hz|exact Hc].
Qed.

Lemma splitlines_aux_chars (n : nat) :
  forall s, (length s <= n)%nat ->
  forall cur l c, In l (splitlines_aux cur s) -> In c l -> In c cur \/ In c s.
Proof.
  induction n as [|n IH]; intros s Hlen cur l c Hl Hc.
  - destruct s; [|cbn in Hlen; lia]. cbn in Hl.
    destruct cur as [|x cur']; [destruct Hl|].
    destruct Hl as [<-|[]]. left. apply in_rev. exact Hc.
  - destruct s as [|d r].
    + cbn in Hl. destruct cur as [|x cur']; [destruct Hl|].
      destruct Hl as [<-|[]]. left. apply in_rev. exact Hc.
    + cbn in Hlen. cbn [splitlines_aux] in Hl.
      assert (Hrec : forall t, (length t <= n)%nat -> (forall x, In x t -> In x r) ->
                forall cur0, In l (splitlines_aux cur0 t) ->
                In c cur0 \/ In c (d :: r)).
      { intros t Ht Hsub cur0 Hl0. destruct (IH t Ht cur0 l c Hl0 Hc) as [H|H];
          [left; exact H|right; right; apply Hsub; exact H]. }
      destruct (d =? 13).
      * destruct r as [|d' r'].
        -- destruct Hl as [<-|[]]. left. apply in_rev. exact Hc.
        -- destruct (d' =? 10); (destruct Hl as [<-|Hl]; [left; apply in_rev; exact Hc|]).
           ++ destruct (Hrec r') with (cur0 := @nil Z) as [[]|H];
                [cbn in *; lia|intros x Hx; right; exact Hx|exact Hl|right; exact H].
           ++ destruct (Hrec (d' :: r')) with (cur0 := @nil Z) as [[]|H];
                [cbn in *; lia|intros x Hx; exact Hx|exact Hl|right; exact H].
      * destruct (line_boundary d).
        -- destruct Hl as [<-|Hl]; [left; apply in_rev; exact Hc|].
           destruct (Hrec r) with (cur0 := @nil Z) as [[]|H];
             [lia|intros x Hx; exact Hx|exact Hl|right; exact H].
        -- destruct (Hrec r) with (cur0 := d :: cur) as [[H|H]|H];
             [lia|intros x Hx; exact Hx|exact Hl| | |].
           ++ right. left. exact H.
           ++ left. exact H.
           ++ right. exact H.
Qed.


Lemma splitlines_cells_ok (s : pystr) :
  (forall c, In c s -> illegal_char c = false) -> forallb cell_ok (splitlines s) = true.
Proof.
  intros Hs. apply forallb_forall. intros l Hl. unfold cell_ok.
  apply negb_true_iff. apply not_true_is_false. intros Hex.
  apply existsb_exists in Hex as (c & Hc & Hill).
  assert (Hi : In c l).
  { rewrite <- (firstn_skipn (Z.to_nat 32767) l). apply in_or_app. left. exact Hc. }
  destruct (splitlines_aux_chars (length s) s (le_n _) [] l c Hl Hi) as [[]|H].
  rewrite (Hs c H) in Hill. discriminate.
Qed.


Lemma hex4_ascii (n x : Z) : In x (hex4 n) -> 48 <= x <= 102.
Proof.
  unfold hex4. intros Hx. apply in_map_iff in Hx as (k & <- & _).
  assert (Hd : forall m, 0 <= Z.land m 15 < 16).
  { intros m. change 15 with (Z.ones 4). rewrite Z.land_ones by lia.
    apply Z.mod_pos_bound. lia. }
  specialize (Hd (Z.shiftr n (4 * k))). unfold hex_digit.
  destruct (Z.land (Z.shiftr n (4 * k)) 15 <? 10) eqn:H;
    [apply Z.ltb_lt in H|apply Z.ltb_ge in H]; lia.
Qed.

Lemma json_char_ascii (c x : Z) : In x (json_char c) -> 32 <= x <= 126.
Proof.
  unfold json_char. intros Hx.
  destruct (c =? 34); [destruct Hx as [<-|[<-|[]]]; lia|].
  destruct (c =? 92); [destruct Hx as [<-|[<-|[]]]; lia|].
  destruct ((32 <=? c) && (c <=? 126)) eqn:Hp.
  { apply andb_prop in Hp as [H1 H2]. apply Z.leb_le in H1, H2.
    destruct Hx as [<-|[]]; lia. }
  destruct (c =? 8); [destruct Hx as [<-|[<-|[]]]; lia|].
  destruct (c =? 12); [destruct Hx as [<-|[<-|[]]]; lia|].
  destruct (c =? 10); [destruct Hx as [<-|[<-|[]]]; lia|].
  destruct (c =? 13); [destruct Hx as [<-|[<-|[]]]; lia|].
  destruct (c =? 9); [destruct Hx as [<-|[<-|[]]]; lia|].
  destruct (c <? 65536).
  - apply in_app_or in Hx as [[<-|[<-|[]]]|Hx]; [lia|lia|].
    apply hex4_ascii in Hx. lia.
  - apply in_app_or in Hx as [[<-|[<-|[]]]|Hx]; [lia|lia|].
    apply in_app_or in Hx as [Hx|Hx]; [apply hex4_ascii in Hx; lia|].
    apply in_app_or in Hx as [[<-|[<-|[]]]|Hx]; [lia|lia|].
    apply hex4_ascii in Hx. lia.
Qed.

(** X19: the file [project_review.json] is plain ASCII: whatever the
    review text, every character [json.dump] writes (with its default
    [ensure_ascii]) is a newline or a printable ASCII character. *)
Theorem review_json_ascii (review : pystr) :
  forall c, In c (review_json review) -> c = NL \/ 32 <= c <= 126.
Proof.
  assert (Hs : forall s c, In c (json_string s) -> 32 <= c <= 126).
  { intros s c Hc. unfold json_string in Hc.
    apply in_app_or in Hc as [[<-|[]]|Hc]; [lia|].
    apply in_app_or in Hc as [Hc|[<-|[]]]; [|lia].
    apply in_flat_map in Hc as (d & _ & Hd). exact (json_char_ascii d c Hd). }
  intros c Hc. unfold review_json in Hc.
  repeat match type of Hc with
  | In _ (_ ++ _) => apply in_app_or in Hc as [Hc|Hc]
  end;
  try (right; eapply Hs; exact Hc);
  vm_compute in Hc;
  repeat match type of Hc with
  | _ \/ _ => destruct Hc as [<-|Hc]; [first [left; reflexivity|right; lia]|]
  | False => destruct Hc
  end.
Qed.

(** Witness of X19: the review "é" is written as [\u00e9], whose
    backslash is in the file. *)
Lemma review_json_ascii_witness :
  In 92 (review_json [233]) /\ (92 = NL \/ 32 <= 92 <= 126).
Proof.
  assert (Hin : In 92 (review_json [233])).
  { vm_compute. repeat (first [left; reflexivity | right]). }
  split; [exact Hin|].
  exact (review_json_ascii [233] 92 Hin).
Defined.





(** Witness of X14: the source [proj/a.py] is neither export. *)
Lemma run_pipeline_review_only_keeps_sources_witness :
  lit "proj/a.py" <> lit "project_review.xlsx" /\ lit "proj/a.py" <> json_filename /\
  st_fs (run_pipeline (Scenarios.proj_env true [lit "a.py"]) (lit "proj") true false true
           None 1000 true (lit "project_review.xlsx") true (St Scenarios.proj_fs 0 0)).1.2
    !! lit "proj/a.py" = Scenarios.proj_fs !! lit "proj/a.py".
Proof.
  assert (H1 : lit "proj/a.py" <> lit "project_review.xlsx") by discriminate.
  assert (H2 : lit "proj/a.py" <> json_filename) by discriminate.
  split; [exact H1|split; [exact H2|]].
  exact (run_pipeline_review_only_keeps_sources (Scenarios.proj_env true [lit "a.py"])
    (lit "proj") true true None 1000 true (lit "project_review.xlsx") true
    (St Scenarios.proj_fs 0 0) (lit "proj/a.py") H1 H2).
Defined.


End PipelineExtras.

Module MarkdownExtras.
Import Markdown.

Lemma md_loop_unclosed (acc rest : list pystr) :
  (forall l, In l rest -> prefixb Fences.fence (strip l) = false) ->
  md_loop (InCode acc) rest = [].
Proof.
  revert acc. induction rest as [|l rest IH]; intros acc Hno; [reflexivity|].
  cbn [md_loop md_step]. rewrite (Hno l (or_introl eq_refl)).
  apply IH. intros l' Hl'. apply Hno. right. exact Hl'.
Qed.

(** X16: the renderer of the window shows nothing of a code block that is
    never closed: once a line opens a block (it starts with ``` after
    stripping) and no later line starts one, no further text is inserted;
    a text whose first line opens such a block is not displayed at all. *)
Theorem render_markdown_unclosed_block :
  (forall code_block_lines rest,
     (forall l, In l rest -> prefixb Fences.fence (strip l) = false) ->
     md_loop (InCode code_block_lines) rest = []) /\
  (forall text l0 rest,
     split_on NL text = l0 :: rest -> prefixb Fences.fence (strip l0) = true ->
     (forall l, In l rest -> prefixb Fences.fence (strip l) = false) ->
     render_markdown text = []).
Proof.
  split; [exact md_loop_unclosed|].
  intros text l0 rest Hsplit Hopen Hno. unfold render_markdown. rewrite Hsplit.
  cbn [md_loop md_step]. unfold normal_step. rewrite Hopen. cbn [app].
  exact (md_loop_unclosed [] rest Hno).
Qed.

Lemma md_loop_code_block (closing : pystr) (rest : list pystr) :
  prefixb Fences.fence (strip closing) = true ->
  forall body acc, (forall l, In l body -> prefixb Fences.fence (strip l) = false) ->
  md_loop (InCode acc) (body ++ closing :: rest) =
    [(join [NL] (acc ++ body) ++ [NL], Some TCode); ([NL], None)] ++ md_loop Normal rest.
Proof.
  intros Hclose body. induction body as [|l body IH]; intros acc Hno.
  - cbn [app md_loop md_step]. rewrite Hclose, app_nil_r. reflexivity.
  - cbn [app md_loop]. cbn [md_step]. rewrite (Hno l (or_introl eq_refl)). cbn [app].
    rewrite IH by (intros l' Hl'; apply Hno; right; exact Hl').
    rewrite <- app_assoc. reflexivity.
Qed.

(** X17: a closed code block is shown verbatim: its lines, whatever they
    hold (headers, tables or backticks included), are inserted joined by
    newlines with the [code] tag, followed by a blank line, and rendering
    goes on after the closing fence as from a fresh start. *)
Theorem render_markdown_code_block (opening closing : pystr) (body rest : list pystr) :
  prefixb Fences.fence (strip opening) = true ->
  prefixb Fences.fence (strip closing) = true ->
  (forall l, In l body -> prefixb Fences.fence (strip l) = false) ->
  md_loop Normal (opening :: body ++ closing :: rest) =
    [(join [NL] body ++ [NL], Some TCode); ([NL], None)] ++ md_loop Normal rest.
Proof.
  intros Hopen Hclose Hno. cbn [md_loop md_step]. unfold normal_step.
  rewrite Hopen. cbn [app]. exact (md_loop_code_block closing rest Hclose body [] Hno).
Qed.

(** X18: inside a table, every row (a line holding '|') is displayed with
    exactly as many cells as the header: cell [i] is the [i]-th cell of the
    line, stripped, or empty when the line has fewer cells, and the cells
    beyond the header's are dropped. *)
Theorem render_markdown_table_row (cols : list pystr) (line : pystr)
    (next : option pystr) :
  contains 124 line = true ->
  exists cells,
    md_step (InTable cols) line next = (InTable cols, [(cells_row cells, None)]) /\
    length cells = length cols /\
    (forall i, (i < length cols)%nat -> nth i cells [] = nth i (inner_cells line) []).
Proof.
  intros Hbar. exists (fit_cells (length cols) (inner_cells line)).
  split; [cbn [md_step]; rewrite Hbar; reflexivity|].
  unfold fit_cells. set (row := inner_cells line). set (n := length cols).
  split.
  - rewrite length_firstn, length_app, repeat_length. lia.
  - intros i Hi. rewrite nth_firstn. destruct (Nat.ltb_spec i n); [|lia].
    destruct (Nat.lt_ge_cases i (length row)) as [Hr|Hr].
    + rewrite app_nth1 by exact Hr. reflexivity.
    + rewrite app_nth2 by exact Hr. rewrite nth_repeat, nth_overflow by exact Hr.
      reflexivity.
Qed.

(** Witness of X16: a reply cut off inside its code block. *)
Lemma render_markdown_unclosed_block_witness :
  let text := lit "```python" ++ [NL] ++ lit "x = 1" in
  split_on NL text = [lit "```python"; lit "x = 1"] /\
  prefixb Fences.fence (strip (lit "```python")) = true /\
  (forall l, In l [lit "x = 1"] -> prefixb Fences.fence (strip l) = false) /\
  render_markdown text = [].
Proof.
  intros text.
  assert (H1 : split_on NL text = [lit "```python"; lit "x = 1"]) by (vm_compute; reflexivity).
  assert (H2 : prefixb Fences.fence (strip (lit "```python")) = true)
    by (vm_compute; reflexivity).
  assert (H3 : forall l, In l [lit "x = 1"] -> prefixb Fences.fence (strip l) = false)
    by (intros l [<-|[]]; vm_compute; reflexivity).
  split; [exact H1|split; [exact H2|split; [exact H3|]]].
  exact (proj2 render_markdown_unclosed_block text _ _ H1 H2 H3).
Defined.

(** Witness of X17: a block holding a line that looks like a header. *)
Lemma render_markdown_code_block_witness :
  prefixb Fences.fence (strip (lit "```python")) = true /\
  prefixb Fences.fence (strip (lit "```")) = true /\
  (forall l, In l [lit "## not a header"] -> prefixb Fences.fence (strip l) = false) /\
  md_loop Normal (lit "```python" :: [lit "## not a header"] ++ lit "```" :: [lit "tail"]) =
    [(join [NL] [lit "## not a header"] ++ [NL], Some TCode); ([NL], None)] ++
    md_loop Normal [lit "tail"].
Proof.
  assert (H1 : prefixb Fences.fence (strip (lit "```python")) = true)
    by (vm_compute; reflexivity).
  assert (H2 : prefixb Fences.fence (strip (lit "```")) = true) by (vm_compute; reflexivity).
  assert (H3 : forall l, In l [lit "## not a header"] -> prefixb Fences.fence (strip l) = false)
    by (intros l [<-|[]]; vm_compute; reflexivity).
  split; [exact H1|split; [exact H2|split; [exact H3|]]].
  exact (render_markdown_code_block _ _ _ _ H1 H2 H3).
Defined.

(** Witness of X18: a row with three cells under a two-column header. *)
Lemma render_markdown_table_row_witness :
  contains 124 (lit "| 1 | 2 | 3 |") = true /\
  exists cells,
    md_step (InTable [lit "A"; lit "B"]) (lit "| 1 | 2 | 3 |") None =
      (InTable [lit "A"; lit "B"], [(cells_row cells, None)]) /\
    length cells = length [lit "A"; lit "B"] /\
    (forall i, (i < length [lit "A"; lit "B"])%nat ->
       nth i cells [] = nth i (inner_cells (lit "| 1 | 2 | 3 |")) []).
Proof.
  assert (H : contains 124 (lit "| 1 | 2 | 3 |") = true) by reflexivity.
  split; [exact H|].
  exact (render_markdown_table_row [lit "A"; lit "B"] _ None H).
Defined.

End MarkdownExtras.
